(** * The repository layer of the elevator-demand service

    A shallow embedding of [app/repository/__init__.py]: the abstract
    repository, whose five methods raise [NotImplementedError], and
    [ElevatorDemandRepository], which implements them over a SQLAlchemy
    session.

    The methods are written once, against an interface of the session and of
    the mapped instances ([ORM]), in a state-and-exception monad.  What holds
    of the repository whatever the session does (propagation of errors, the
    identifier [delete] looks up) is proved over the interface; what depends
    on the storage (round trips, listing) is proved over [Session], a model of
    a session bound to one table. *)

From stdpp Require Import base option list gmap strings.

Set Default Proof Using "Type".

(** ** Values and exceptions *)

(** A [pydantic.UUID4] value, as the 128-bit number it stands for. *)
Abbreviation UUID4 := N (only parsing).

(** The identity of a Python object: two names alias iff they carry the same
    reference. *)
Abbreviation ref := nat (only parsing).

(** The exceptions the layer can meet.  [NotImplementedError] is raised by
    the abstract methods; the next three are SQLAlchemy's (a violated
    constraint, a failed connection, a session used on an instance in the
    wrong state); [ValidationError] is pydantic's.  [DanglingReference] stands
    for the use of a reference that names no object, which Python rules out:
    it keeps the heap model total. *)
Inductive Exn : Type :=
  | NotImplementedError
  | IntegrityError
  | OperationalError
  | InvalidRequestError
  | ValidationError
  | DanglingReference.

Global Instance Exn_eq_dec : EqDecision Exn.
Proof. solve_decision. Defined.

(** ** The monad of a Python call: it returns a value in a new state, or it
    raises. *)

Inductive Outcome (S A : Type) : Type :=
  | Returns (a : A) (s : S)
  | Raises (e : Exn).
Arguments Returns {S A} a s.
Arguments Raises {S A} e.

Definition M (S A : Type) : Type := S → Outcome S A.

Global Instance M_ret {S} : MRet (M S) := λ A a s, Returns a s.
Global Instance M_bind {S} : MBind (M S) := λ A B f m s,
  match m s with
  | Returns a s' => f a s'
  | Raises e => Raises e
  end.

(** [raise e] in Python. *)
Definition raise {S A} (e : Exn) : M S A := λ _, Raises e.

(** A comprehension [[f x for x in xs]] whose body has effects: the elements
    are visited from left to right, and the first exception ends the loop. *)
Fixpoint mapM {S A B} (f : A → M S B) (xs : list A) : M S (list B) :=
  match xs with
  | [] => mret []
  | x :: xs' => y ← f x; ys ← mapM f xs'; mret (y :: ys)
  end.

(** Python's [bool(x)] on the result of [Query.first()]: [None] is false, a
    mapped instance (which defines neither [__bool__] nor [__len__]) is
    true. *)
Definition py_bool {A} (x : option A) : bool :=
  match x with Some _ => true | None => false end.

(** ** The schemas and the mapped class *)

(** Modelled from the spec: [app.schemas.ElevatorDemandInput] is not in the
    source tree.  The Demand Input carries [origin] and [destination] and no
    identifier. *)
Record ElevatorDemandInput : Type := mkInput {
  in_origin : string;
  in_destination : string;
}.

(** Modelled from the spec: [app.schemas.ElevatorDemandOutput] is not in the
    source tree.  The Demand Output exposes [id], [origin] and
    [destination]. *)
Record ElevatorDemandOutput : Type := mkOutput {
  out_id : UUID4;
  out_origin : string;
  out_destination : string;
}.

(** Modelled from the spec: [app.models.ElevatorDemand] is not in the source
    tree.  The Demand Record has the fields [id] (generated by storage),
    [origin] and [destination]; the attributes of an instance are these
    three, [id] being [None] until storage has generated it.  The same record
    stands for the instance's [__dict__]. *)
Record ElevatorDemand : Type := mkDemand {
  id : option UUID4;
  origin : string;
  destination : string;
}.

Global Instance ElevatorDemandInput_eq_dec : EqDecision ElevatorDemandInput.
Proof. solve_decision. Defined.
Global Instance ElevatorDemandOutput_eq_dec : EqDecision ElevatorDemandOutput.
Proof. solve_decision. Defined.
Global Instance ElevatorDemand_eq_dec : EqDecision ElevatorDemand.
Proof. solve_decision. Defined.

(** [item.model_dump()]: the keyword arguments [origin=..., destination=...]
    that [create] passes on to the mapped class. *)
Definition model_dump (item : ElevatorDemandInput) : string * string :=
  (in_origin item, in_destination item).

(** [ElevatorDemandOutput(id=..., origin=..., destination=...)]: validation
    rejects an [id] that is [None]. *)
Definition ElevatorDemandOutput_init {S}
    (i : option UUID4) (o d : string) : M S ElevatorDemandOutput :=
  match i with
  | Some u => mret (mkOutput u o d)
  | None => raise ValidationError
  end.

(** [ElevatorDemandOutput] built from the keyword arguments of a [__dict__]:
    the three fields are looked up by name, whatever else the dictionary
    holds is ignored. *)
Definition ElevatorDemandOutput_of_dict {S}
    (d : ElevatorDemand) : M S ElevatorDemandOutput :=
  ElevatorDemandOutput_init (id d) (origin d) (destination d).

(** ** What the repository asks of SQLAlchemy *)

(** The operations the source calls on the session and on mapped instances,
    over a state [S] that holds the Python heap and the session.  Each may
    change the state and each may raise. *)
Class ORM (S : Type) : Type := {
  (** [ElevatorDemand(origin=o, destination=d)]: a new transient instance *)
  ElevatorDemand_init : string * string → M S ref;
  (** [item.id], [item.origin], [item.destination], [item.__dict__] *)
  getattr_id : ref → M S (option UUID4);
  getattr_origin : ref → M S string;
  getattr_destination : ref → M S string;
  getattr_dict : ref → M S ElevatorDemand;
  (** [item.origin = v], [item.destination = v] *)
  setattr_origin : ref → string → M S unit;
  setattr_destination : ref → string → M S unit;
  (** [session.add(item)], [session.delete(item)], [session.commit()],
      [session.refresh(item)] *)
  session_add : ref → M S unit;
  session_delete : ref → M S unit;
  session_commit : M S unit;
  session_refresh : ref → M S unit;
  (** [session.query(ElevatorDemand).all()] *)
  session_query_all : M S (list ref);
  (** [session.query(ElevatorDemand).filter_by(id=v).first()] *)
  session_query_filter_by_id_first : option UUID4 → M S (option ref);
}.

(** ** The abstract repository *)

Module AbstractRepository.
Section Methods.
Context {S Item ItemId NewData Result : Type}.

(** Every method is [raise NotImplementedError], whatever it is given and
    whatever a caller expects back. *)
Definition create (item : Item) : M S Result := raise NotImplementedError.
Definition get_all : M S Result := raise NotImplementedError.
Definition get_item (item_id : ItemId) : M S Result :=
  raise NotImplementedError.
Definition update (item : Item) (new_data : NewData) : M S Result :=
  raise NotImplementedError.
Definition delete (item : Item) : M S Result := raise NotImplementedError.
End Methods.
End AbstractRepository.

(** ** The elevator-demand repository *)

(** [__init__] keeps the session it is given; here the session is the state
    the methods run in, and [self] is left implicit. *)

Module ElevatorDemandRepository.
Section Methods.
Context {S : Type} {orm : ORM S}.

Definition create (item : ElevatorDemandInput) : M S ElevatorDemandOutput :=
  demand ← ElevatorDemand_init (model_dump item);
  session_add demand;;
  session_commit;;
  session_refresh demand;;
  i ← getattr_id demand;
  o ← getattr_origin demand;
  d ← getattr_destination demand;
  ElevatorDemandOutput_init i o d.

Definition get_all : M S (list ElevatorDemandOutput) :=
  items ← session_query_all;
  mapM (λ item, d ← getattr_dict item; ElevatorDemandOutput_of_dict d) items.

Definition get_item (item_id : UUID4) : M S (option ref) :=
  session_query_filter_by_id_first (Some item_id).

Definition update (item : ref) (new_data : ElevatorDemandInput)
  : M S ElevatorDemandOutput :=
  setattr_origin item (in_origin new_data);;
  setattr_destination item (in_destination new_data);;
  session_commit;;
  session_refresh item;;
  d ← getattr_dict item;
  ElevatorDemandOutput_of_dict d.

Definition delete (item : ref) : M S bool :=
  id_ ← getattr_id item;
  session_delete item;;
  session_commit;;
  found ← session_query_filter_by_id_first id_;
  mret (py_bool found).
End Methods.
End ElevatorDemandRepository.

(** ** A model of the session *)

(** SQLAlchemy is not part of the repository; what follows is a model of one
    session bound to the elevator-demand table, precise about what the
    methods above rely on: the units of work ([new], [dirty], [deleted]) and
    their flush at commit and before a query, the identity map (one instance
    per primary key), the generation of [id] at insertion, the primary-key
    constraint, and a connection that may fail.  The session is the only
    writer of the table.  The expiry of attributes at commit is left out: an
    expired attribute is reloaded when it is read, and in this model a query
    and [refresh] rewrite the attributes of the instances they touch. *)

(** A row of the elevator-demand table: the primary key [id] and the two text
    columns. *)
Record Row : Type := mkRow {
  row_id : UUID4;
  row_origin : string;
  row_destination : string;
}.

Global Instance Row_eq_dec : EqDecision Row.
Proof. solve_decision. Defined.

(** The state a session works on.
    - [table]: the rows of the table, in the order storage returns them;
    - [heap]: the mapped instances, a reference being an index in it;
    - [identity_map]: the persistent instance of each primary key;
    - [new], [dirty], [deleted]: the instances whose insertion, update or
      deletion is pending until the next flush;
    - [uuid_gen], [uuid_count]: the generator of identifiers, as the sequence
      of its draws and the number of draws made so far;
    - [faults]: what the connection will do on the next round trips to
      storage, [Some e] for a failure with [e]; past the end of the list the
      connection works. *)
Record Session : Type := mkSession {
  table : list Row;
  heap : list ElevatorDemand;
  identity_map : gmap UUID4 ref;
  new : list ref;
  dirty : list ref;
  deleted : list ref;
  uuid_gen : nat → UUID4;
  uuid_count : nat;
  faults : list (option Exn);
}.

Definition with_table (f : list Row → list Row) (s : Session) : Session :=
  mkSession (f (table s)) (heap s) (identity_map s) (new s) (dirty s)
    (deleted s) (uuid_gen s) (uuid_count s) (faults s).
Definition with_heap (f : list ElevatorDemand → list ElevatorDemand)
    (s : Session) : Session :=
  mkSession (table s) (f (heap s)) (identity_map s) (new s) (dirty s)
    (deleted s) (uuid_gen s) (uuid_count s) (faults s).
Definition with_identity_map (f : gmap UUID4 ref → gmap UUID4 ref)
    (s : Session) : Session :=
  mkSession (table s) (heap s) (f (identity_map s)) (new s) (dirty s)
    (deleted s) (uuid_gen s) (uuid_count s) (faults s).
Definition with_new (f : list ref → list ref) (s : Session) : Session :=
  mkSession (table s) (heap s) (identity_map s) (f (new s)) (dirty s)
    (deleted s) (uuid_gen s) (uuid_count s) (faults s).
Definition with_dirty (f : list ref → list ref) (s : Session) : Session :=
  mkSession (table s) (heap s) (identity_map s) (new s) (f (dirty s))
    (deleted s) (uuid_gen s) (uuid_count s) (faults s).
Definition with_deleted (f : list ref → list ref) (s : Session) : Session :=
  mkSession (table s) (heap s) (identity_map s) (new s) (dirty s)
    (f (deleted s)) (uuid_gen s) (uuid_count s) (faults s).
Definition with_uuid_count (f : nat → nat) (s : Session) : Session :=
  mkSession (table s) (heap s) (identity_map s) (new s) (dirty s)
    (deleted s) (uuid_gen s) (f (uuid_count s)) (faults s).
Definition with_faults (f : list (option Exn) → list (option Exn))
    (s : Session) : Session :=
  mkSession (table s) (heap s) (identity_map s) (new s) (dirty s)
    (deleted s) (uuid_gen s) (uuid_count s) (f (faults s)).

Module SessionModel.

(** Reading and changing the state. *)
Definition gets {A} (f : Session → A) : M Session A := λ s, Returns (f s) s.
Definition modify (f : Session → Session) : M Session unit :=
  λ s, Returns () (f s).

(** The row an instance is written to under the key [pk], and the attributes
    an instance gets when it is loaded from a row. *)
Definition row_of (pk : UUID4) (obj : ElevatorDemand) : Row :=
  mkRow pk (origin obj) (destination obj).
Definition instance_of (row : Row) : ElevatorDemand :=
  mkDemand (Some (row_id row)) (row_origin row) (row_destination row).

(** [SELECT ... WHERE id = pk], in storage order. *)
Definition select_by_id (pk : UUID4) (rows : list Row) : list Row :=
  filter (λ row, row_id row = pk) rows.

(** An instance is persistent when the identity map holds it under its own
    identifier. *)
Definition persistent (r : ref) (s : Session) : bool :=
  match heap s !! r with
  | Some obj =>
      match id obj with
      | Some pk => bool_decide (identity_map s !! pk = Some r)
      | None => false
      end
  | None => false
  end.

(** One round trip to storage: it fails as the connection dictates. *)
Definition round_trip : M Session unit := λ s,
  match faults s with
  | [] => Returns () s
  | None :: fs => Returns () (with_faults (λ _, fs) s)
  | Some e :: _ => Raises e
  end.

(** Access to an instance through its reference. *)
Definition deref (r : ref) : M Session ElevatorDemand := λ s,
  match heap s !! r with
  | Some obj => Returns obj s
  | None => Raises DanglingReference
  end.

Definition init (kw : string * string) : M Session ref :=
  r ← gets (λ s, length (heap s));
  modify (with_heap (λ h, h ++ [mkDemand None kw.1 kw.2]));;
  mret r.

(** Writing an attribute of a persistent instance marks it dirty, once. *)
Definition setattr (f : ElevatorDemand → ElevatorDemand) (r : ref)
    : M Session unit :=
  obj ← deref r;
  p ← gets (λ s, persistent r s && bool_decide (r ∉ dirty s));
  modify (with_heap (λ h, <[r := f obj]> h));;
  if p : bool then modify (with_dirty (λ l, l ++ [r])) else mret ().

(** [session.add]: a transient instance becomes pending; an instance that is
    pending or persistent already stays as it is. *)
Definition add (r : ref) : M Session unit :=
  _ ← deref r;
  p ← gets (λ s, persistent r s || bool_decide (r ∈ new s));
  if p : bool then mret () else modify (with_new (λ l, l ++ [r])).

(** [session.delete]: only a persistent instance can be marked. *)
Definition mark_deleted (r : ref) : M Session unit :=
  _ ← deref r;
  p ← gets (persistent r);
  marked ← gets (λ s, bool_decide (r ∈ deleted s));
  if p : bool then
    if marked : bool then mret () else modify (with_deleted (λ l, l ++ [r]))
  else raise InvalidRequestError.

(** The identifier a pending instance is inserted under: its own if it has
    one, else the next draw of the generator. *)
Definition next_id (obj : ElevatorDemand) : M Session UUID4 :=
  match id obj with
  | Some pk => mret pk
  | None =>
      pk ← gets (λ s, uuid_gen s (uuid_count s));
      modify (with_uuid_count S);;
      mret pk
  end.

(** [INSERT]: the primary key must be new to the table.  The instance
    receives its identifier and becomes persistent. *)
Definition insert_row (r : ref) : M Session unit :=
  obj ← deref r;
  pk ← next_id obj;
  taken ← gets (λ s, bool_decide (pk ∈ row_id <$> table s));
  if taken : bool then raise IntegrityError
  else
    modify (with_table (λ t, t ++ [row_of pk obj]));;
    modify (with_heap (λ h, <[r := instance_of (row_of pk obj)]> h));;
    modify (with_identity_map (λ m, <[pk := r]> m)).

(** [UPDATE ... WHERE id = pk] with the attributes of the instance. *)
Definition update_row (r : ref) : M Session unit :=
  obj ← deref r;
  match id obj with
  | Some pk =>
      modify (with_table (λ t,
        (λ row, if bool_decide (row_id row = pk) then row_of pk obj
                else row) <$> t))
  | None => mret ()
  end.

(** [DELETE ... WHERE id = pk]; the instance leaves the identity map. *)
Definition delete_row (r : ref) : M Session unit :=
  obj ← deref r;
  match id obj with
  | Some pk =>
      modify (with_table (λ t, filter (λ row, row_id row ≠ pk) t));;
      modify (with_identity_map (λ m, base.delete pk m))
  | None => mret ()
  end.

(** The flush: pending insertions, then updates, then deletions, after which
    nothing is pending. *)
Definition flush : M Session unit :=
  pending ← gets new;
  mapM insert_row pending;;
  changed ← gets dirty;
  mapM update_row changed;;
  removed ← gets deleted;
  mapM delete_row removed;;
  modify (with_new (λ _, []));;
  modify (with_dirty (λ _, []));;
  modify (with_deleted (λ _, [])).

(** [session.commit]: a round trip that flushes and makes the transaction
    durable. *)
Definition commit : M Session unit := round_trip;; flush.

(** The instance a query returns for a row: the one the identity map has for
    the key, or else a new one; in both cases its attributes are those of the
    row. *)
Definition materialize (row : Row) : M Session ref :=
  known ← gets (λ s, identity_map s !! row_id row);
  match known with
  | Some r =>
      modify (with_heap (λ h, <[r := instance_of row]> h));;
      mret r
  | None =>
      r ← gets (λ s, length (heap s));
      modify (with_heap (λ h, h ++ [instance_of row]));;
      modify (with_identity_map (λ m, <[row_id row := r]> m));;
      mret r
  end.

(** [session.refresh]: the attributes of a persistent instance are read back
    from its row. *)
Definition refresh (r : ref) : M Session unit :=
  round_trip;;
  obj ← deref r;
  p ← gets (persistent r);
  rows ← gets table;
  match p, id obj with
  | true, Some pk =>
      match head (select_by_id pk rows) with
      | Some row => modify (with_heap (λ h, <[r := instance_of row]> h))
      | None => raise InvalidRequestError
      end
  | _, _ => raise InvalidRequestError
  end.

(** A query flushes first (autoflush), then reads. *)
Definition query_all : M Session (list ref) :=
  round_trip;;
  flush;;
  rows ← gets table;
  mapM materialize rows.

(** [filter_by(id=v).first()]: the first row whose key is [v], if any; no
    row has the key [None]. *)
Definition query_filter_by_id_first (v : option UUID4)
    : M Session (option ref) :=
  round_trip;;
  flush;;
  rows ← gets table;
  match v with
  | Some pk =>
      match head (select_by_id pk rows) with
      | Some row => r ← materialize row; mret (Some r)
      | None => mret None
      end
  | None => mret None
  end.

End SessionModel.

Global Instance Session_ORM : ORM Session := {|
  ElevatorDemand_init := SessionModel.init;
  getattr_id r := obj ← SessionModel.deref r; mret (id obj);
  getattr_origin r := obj ← SessionModel.deref r; mret (origin obj);
  getattr_destination r := obj ← SessionModel.deref r; mret (destination obj);
  getattr_dict := SessionModel.deref;
  setattr_origin r v :=
    SessionModel.setattr (λ obj, mkDemand (id obj) v (destination obj)) r;
  setattr_destination r v :=
    SessionModel.setattr (λ obj, mkDemand (id obj) (origin obj) v) r;
  session_add := SessionModel.add;
  session_delete := SessionModel.mark_deleted;
  session_commit := SessionModel.commit;
  session_refresh := SessionModel.refresh;
  session_query_all := SessionModel.query_all;
  session_query_filter_by_id_first := SessionModel.query_filter_by_id_first;
|}.

(** ** The calls of the repository and the session operations behind them *)

(** A call of one of the five methods of the repository. *)
Inductive Call : Type :=
  | CallCreate (item : ElevatorDemandInput)
  | CallGetAll
  | CallGetItem (item_id : UUID4)
  | CallUpdate (item : ref) (new_data : ElevatorDemandInput)
  | CallDelete (item : ref).

Section Calls.
Context {S : Type} {orm : ORM S}.

(** The call raises [e]. *)
Definition call_raises (c : Call) (s : S) (e : Exn) : Prop :=
  match c with
  | CallCreate item => ElevatorDemandRepository.create item s = Raises e
  | CallGetAll => ElevatorDemandRepository.get_all s = Raises e
  | CallGetItem item_id =>
      ElevatorDemandRepository.get_item item_id s = Raises e
  | CallUpdate item new_data =>
      ElevatorDemandRepository.update item new_data s = Raises e
  | CallDelete item => ElevatorDemandRepository.delete item s = Raises e
  end.

(** A sequence of session operations, run from [s], reaches one that raises
    [e]: the operations before it returned. *)
Fixpoint session_raises (ops : list (M S unit)) (s : S) (e : Exn) : Prop :=
  match ops with
  | [] => False
  | op :: ops' =>
      op s = Raises e ∨ ∃ s', op s = Returns () s' ∧ session_raises ops' s' e
  end.

(** The sequence runs to its end, from [s] to [s']. *)
Fixpoint session_returns (ops : list (M S unit)) (s s' : S) : Prop :=
  match ops with
  | [] => s' = s
  | op :: ops' => ∃ s1, op s = Returns () s1 ∧ session_returns ops' s1 s'
  end.

(** During the call, started in [s], a session operation ([add], [delete],
    [commit], [refresh] or a query) raises [e].  The operations are those of
    the method's body, in its order, each run in the state the ones before it
    left. *)
Definition session_error (c : Call) (s : S) (e : Exn) : Prop :=
  match c with
  | CallCreate item =>
      ∃ demand s1,
        ElevatorDemand_init (model_dump item) s = Returns demand s1 ∧
        session_raises
          [session_add demand; session_commit; session_refresh demand] s1 e
  | CallGetAll => session_query_all s = Raises e
  | CallGetItem item_id =>
      session_query_filter_by_id_first (Some item_id) s = Raises e
  | CallUpdate item new_data =>
      ∃ s1 s2,
        setattr_origin item (in_origin new_data) s = Returns () s1 ∧
        setattr_destination item (in_destination new_data) s1
          = Returns () s2 ∧
        session_raises [session_commit; session_refresh item] s2 e
  | CallDelete item =>
      ∃ id_ s1,
        getattr_id item s = Returns id_ s1 ∧
        (session_raises [session_delete item; session_commit] s1 e ∨
         ∃ s2,
           session_returns [session_delete item; session_commit] s1 s2 ∧
           session_query_filter_by_id_first id_ s2 = Raises e)
  end.

End Calls.

(** ** Sessions the repository works on, and live records *)

(** Nothing is pending: the state every method of the repository that
    returns leaves behind, since each one commits or only queries. *)
Definition clean (s : Session) : Prop :=
  new s = [] ∧ dirty s = [] ∧ deleted s = [].

(** The connection holds from now on. *)
Definition reliable (s : Session) : Prop := faults s = [].

(** Every entry of the identity map names an instance that carries the
    entry's key. *)
Definition identity_ok (s : Session) : Prop :=
  map_Forall (λ pk r, id <$> heap s !! r = Some (Some pk)) (identity_map s).

(** A well-formed session: nothing pending, a sound identity map, and a
    table in which [id] is a key. *)
Record wf (s : Session) : Prop := mk_wf {
  wf_clean : clean s;
  wf_identity : identity_ok s;
  wf_primary_key : NoDup (row_id <$> table s);
}.

(** [r] is a live record with identifier [pk]: a persistent instance whose
    row is in the table. *)
Definition live (s : Session) (r : ref) (pk : UUID4) : Prop :=
  id <$> heap s !! r = Some (Some pk) ∧
  identity_map s !! pk = Some r ∧
  pk ∈ row_id <$> table s.

(** The projection of a row to a Demand Output. *)
Definition output_of (row : Row) : ElevatorDemandOutput :=
  mkOutput (row_id row) (row_origin row) (row_destination row).

(** [row] is the first row of [rows] whose identifier is [pk]. *)
Definition first_match (pk : UUID4) (rows : list Row) (row : Row) : Prop :=
  ∃ before after,
    rows = before ++ row :: after ∧ row_id row = pk ∧
    pk ∉ row_id <$> before.

(** The next [n] identifiers the generator will draw. *)
Definition draws (s : Session) (n : nat) : list UUID4 :=
  (λ k, uuid_gen s (uuid_count s + k)) <$> seq 0 n.

(** A session with nothing in it, given a generator and a connection. *)
Definition empty_session (gen : nat → UUID4) (conn : list (option Exn))
    : Session :=
  mkSession [] [] ∅ [] [] [] gen 0 conn.

(** What a query leaves as it was: everything but the heap and the identity
    map. *)
Definition same_storage (s s' : Session) : Prop :=
  table s' = table s ∧ new s' = new s ∧ dirty s' = dirty s ∧
  deleted s' = deleted s ∧ uuid_gen s' = uuid_gen s ∧
  uuid_count s' = uuid_count s ∧ faults s' = faults s.

(** The rows that creating records from [inputs] adds to the table of [s],
    one per input and in their order. *)
Definition created (s : Session) (inputs : list ElevatorDemandInput)
    : list Row :=
  imap (λ k item, mkRow (uuid_gen s (uuid_count s + k)) (in_origin item)
                    (in_destination item)) inputs.

(** ** Sample sessions *)

Definition sample_gen (n : nat) : UUID4 := (N.of_nat n + 8)%N.

(** One record, ["A"] to ["B"], stored under the identifier 7 and loaded as
    the instance 0. *)
Definition sample_session : Session :=
  mkSession [mkRow 7 "A" "B"] [mkDemand (Some 7%N) "A" "B"] {[ 7%N := 0 ]}
    [] [] [] sample_gen 0 [].

(** A session whose commit also wipes the identifier of the instances that
    are no longer persistent: what a session is free to do to an instance it
    has deleted. *)
Definition scrub (s : Session) : Session :=
  with_heap
    (imap (λ r obj,
       if SessionModel.persistent r s then obj
       else mkDemand None (origin obj) (destination obj))) s.

Definition Scrubbing_ORM : ORM Session := {|
  ElevatorDemand_init := SessionModel.init;
  getattr_id r := obj ← SessionModel.deref r; mret (id obj);
  getattr_origin r := obj ← SessionModel.deref r; mret (origin obj);
  getattr_destination r := obj ← SessionModel.deref r; mret (destination obj);
  getattr_dict := SessionModel.deref;
  setattr_origin r v :=
    SessionModel.setattr (λ obj, mkDemand (id obj) v (destination obj)) r;
  setattr_destination r v :=
    SessionModel.setattr (λ obj, mkDemand (id obj) (origin obj) v) r;
  session_add := SessionModel.add;
  session_delete := SessionModel.mark_deleted;
  session_commit := SessionModel.commit;; SessionModel.modify scrub;
  session_refresh := SessionModel.refresh;
  session_query_all := SessionModel.query_all;
  session_query_filter_by_id_first := SessionModel.query_filter_by_id_first;
|}.

(** A session that ignores [session.delete]: the instance stays persistent
    and its row stays in the table, as when the deletion is vetoed. *)
Definition Keeping_ORM : ORM Session := {|
  ElevatorDemand_init := SessionModel.init;
  getattr_id r := obj ← SessionModel.deref r; mret (id obj);
  getattr_origin r := obj ← SessionModel.deref r; mret (origin obj);
  getattr_destination r := obj ← SessionModel.deref r; mret (destination obj);
  getattr_dict := SessionModel.deref;
  setattr_origin r v :=
    SessionModel.setattr (λ obj, mkDemand (id obj) v (destination obj)) r;
  setattr_destination r v :=
    SessionModel.setattr (λ obj, mkDemand (id obj) (origin obj) v) r;
  session_add := SessionModel.add;
  session_delete _ := mret ();
  session_commit := SessionModel.commit;
  session_refresh := SessionModel.refresh;
  session_query_all := SessionModel.query_all;
  session_query_filter_by_id_first := SessionModel.query_filter_by_id_first;
|}.

(** The sample session over a connection that holds for one round trip and
    then fails. *)
Definition failing_sample_session : Session :=
  mkSession [mkRow 7 "A" "B"] [mkDemand (Some 7%N) "A" "B"] {[ 7%N := 0 ]}
    [] [] [] sample_gen 0 [None; Some OperationalError].

(** Two records: ["A"] to ["B"] under the identifier 7, loaded as the
    instance 0, and ["X"] to ["Y"] under the identifier 3, loaded as the
    instance 1. *)
Definition two_record_session : Session :=
  mkSession [mkRow 7 "A" "B"; mkRow 3 "X" "Y"]
    [mkDemand (Some 7%N) "A" "B"; mkDemand (Some 3%N) "X" "Y"]
    {[ 7%N := 0; 3%N := 1 ]} [] [] [] sample_gen 0 [].

(** The row of identifier [pk] rewritten with the fields of [new_data]: what
    [update] does to the table. *)
Definition rewrite_row (pk : UUID4) (new_data : ElevatorDemandInput)
    (row : Row) : Row :=
  if bool_decide (row_id row = pk)
  then mkRow pk (in_origin new_data) (in_destination new_data)
  else row.

(** The same on the outputs of a listing. *)
Definition rewrite_output (pk : UUID4) (new_data : ElevatorDemandInput)
    (out : ElevatorDemandOutput) : ElevatorDemandOutput :=
  if bool_decide (out_id out = pk)
  then mkOutput pk (in_origin new_data) (in_destination new_data)
  else out.

(** ** Stepping through a method *)

Lemma bind_returns {S A B} (m : M S A) (f : A → M S B) s a s1 :
  m s = Returns a s1 → (m ≫= f) s = f a s1.
Proof. unfold mbind, M_bind. by intros ->. Qed.

Lemma bind_raises {S A B} (m : M S A) (f : A → M S B) s e :
  m s = Raises e → (m ≫= f) s = Raises e.
Proof. unfold mbind, M_bind. by intros ->. Qed.

Lemma bind_returns_inv {S A B} (m : M S A) (f : A → M S B) s b s' :
  (m ≫= f) s = Returns b s' →
  ∃ a s1, m s = Returns a s1 ∧ f a s1 = Returns b s'.
Proof. unfold mbind, M_bind. destruct (m s); [eauto | done]. Qed.

Lemma mret_returns_inv {S A} (a b : A) (s s' : S) :
  mret (M := M S) a s = Returns b s' → b = a ∧ s' = s.
Proof. unfold mret, M_ret. by intros [= <- <-]. Qed.

(** ** The abstract repository raises *)

(** C7. Each of the five methods of [AbstractRepository], called with any
    argument in any state and for any expected result, raises
    [NotImplementedError]. *)
Theorem abstract_methods_raise_NotImplementedError :
  ∀ (S Item ItemId NewData Result : Type)
    (item : Item) (item_id : ItemId) (new_data : NewData) (s : S),
    AbstractRepository.create (Result := Result) item s
      = Raises NotImplementedError ∧
    AbstractRepository.get_all (Result := Result) s
      = Raises NotImplementedError ∧
    AbstractRepository.get_item (Result := Result) item_id s
      = Raises NotImplementedError ∧
    AbstractRepository.update (Result := Result) item new_data s
      = Raises NotImplementedError ∧
    AbstractRepository.delete (Result := Result) item s
      = Raises NotImplementedError.
Proof. intros. repeat split. Qed.

(** ** Errors of the session reach the caller *)

Section Propagation.
Context {S : Type} {orm : ORM S}.

Lemma session_raises_bind {A} (ops : list (M S unit)) (k : M S A) s e :
  session_raises ops s e →
  foldr (λ op rest, op ≫= λ _, rest) k ops s = Raises e.
Proof.
  revert s. induction ops as [|op ops IH]; intros s; simpl; [done|].
  intros [Hop | (s' & Hop & Hrest)].
  - by apply bind_raises.
  - rewrite (bind_returns _ _ _ _ _ Hop). by apply IH.
Qed.

Lemma session_returns_bind {A} (ops : list (M S unit)) (k : M S A) s s' :
  session_returns ops s s' →
  foldr (λ op rest, op ≫= λ _, rest) k ops s = k s'.
Proof.
  revert s. induction ops as [|op ops IH]; intros s; simpl.
  - by intros ->.
  - intros (s1 & Hop & Hrest). rewrite (bind_returns _ _ _ _ _ Hop).
    by apply IH.
Qed.

End Propagation.

(** C8. Whatever the session is, when a session operation raises [e] during
    a call of the repository, the call raises that same [e]: no method
    catches, translates, wraps or retries. *)
Theorem session_errors_propagate :
  ∀ (S : Type) (orm : ORM S) (c : Call) (s : S) (e : Exn),
    session_error c s e → call_raises c s e.
Proof.
  intros S orm [item| |item_id|item new_data|item] s e; simpl.
  - intros (demand & s1 & Hinit & Hops).
    unfold ElevatorDemandRepository.create.
    rewrite (bind_returns _ _ _ _ _ Hinit).
    exact (session_raises_bind
      [session_add demand; session_commit; session_refresh demand] _ _ _ Hops).
  - intros Hq. unfold ElevatorDemandRepository.get_all.
    by apply bind_raises.
  - intros Hq. exact Hq.
  - intros (s1 & s2 & Ho & Hd & Hops).
    unfold ElevatorDemandRepository.update.
    rewrite (bind_returns _ _ _ _ _ Ho), (bind_returns _ _ _ _ _ Hd).
    exact (session_raises_bind
      [session_commit; session_refresh item] _ _ _ Hops).
  - intros (id_ & s1 & Hid & Hops).
    unfold ElevatorDemandRepository.delete.
    rewrite (bind_returns _ _ _ _ _ Hid).
    destruct Hops as [Hops | (s2 & Hops & Hq)].
    + exact (session_raises_bind
        [session_delete item; session_commit] _ _ _ Hops).
    + etrans.
      * exact (session_returns_bind
          [session_delete item; session_commit] _ _ _ Hops).
      * by apply bind_raises.
Qed.

(** ** The identifier [delete] looks up *)

(** C10. Whatever the session is, when [delete] returns, the identifier it
    queried after the commit is the one [item.id] gave in the state in which
    [delete] was called, before the deletion was issued; the answer is the
    truth value of that query's result.  What [session.delete] and
    [session.commit] do to the instance plays no part. *)
Theorem delete_queries_the_identifier_read_first :
  ∀ (S : Type) (orm : ORM S) (item : ref) (s s' : S) (b : bool),
    ElevatorDemandRepository.delete item s = Returns b s' →
    ∃ id_ s0 s1 s2 found,
      getattr_id item s = Returns id_ s0 ∧
      session_delete item s0 = Returns () s1 ∧
      session_commit s1 = Returns () s2 ∧
      session_query_filter_by_id_first id_ s2 = Returns found s' ∧
      b = py_bool found.
Proof.
  intros S orm item s s' b. unfold ElevatorDemandRepository.delete.
  intros (id_ & s0 & Hid & H)%bind_returns_inv.
  apply bind_returns_inv in H as ([] & s1 & Hdel & H).
  apply bind_returns_inv in H as ([] & s2 & Hcommit & H).
  apply bind_returns_inv in H as (found & s3 & Hq & H).
  apply mret_returns_inv in H as [-> ->].
  by exists id_, s0, s1, s2, found.
Qed.

(** ** Tactics for the session model *)

(** Unfolding the monad. *)
Ltac mred :=
  repeat (progress (unfold mbind, M_bind, mret, M_ret, SessionModel.gets,
                      SessionModel.modify, raise;
                    simpl)).

(** The session operations behind the interface. *)
Ltac orm_ops :=
  cbn [ElevatorDemand_init session_add session_commit session_refresh
       session_delete session_query_all session_query_filter_by_id_first
       getattr_id getattr_origin getattr_destination getattr_dict
       setattr_origin setattr_destination Session_ORM].

(** States in explicit form. *)
Ltac norm :=
  unfold with_table, with_heap, with_identity_map, with_new, with_dirty,
    with_deleted, with_uuid_count, with_faults, SessionModel.row_of,
    SessionModel.instance_of;
  simpl.

(** The side conditions of a step. *)
Ltac side :=
  simpl;
  first
    [ done
    | by apply list_lookup_middle
    | by rewrite lookup_insert_eq
    | by apply list_lookup_insert_eq
    | by apply not_elem_of_nil
    | by (unfold SessionModel.persistent; simpl; rewrite list_lookup_middle)
    | by eauto ].

(** One step of a method: the next operation returns, by [lem]. *)
Ltac mstep_with lem := erewrite bind_returns by (eapply lem; side); norm.

(** ** The operations of the session model, one step at a time *)

Section SessionSteps.
Import SessionModel.


Lemma deref_run r s obj : heap s !! r = Some obj → deref r s = Returns obj s.
Proof. unfold deref. by intros ->. Qed.

Lemma getattr_run {A} (f : ElevatorDemand → A) r s obj :
  heap s !! r = Some obj →
  (obj ← deref r; mret (f obj)) s = Returns (f obj) s.
Proof.
  intros Hr. by rewrite (bind_returns _ _ _ _ _ (deref_run _ _ _ Hr)).
Qed.

Lemma round_trip_run s : reliable s → round_trip s = Returns () s.
Proof. unfold round_trip, reliable. by intros ->. Qed.

Lemma init_run kw s :
  init kw s = Returns (length (heap s))
                (with_heap (λ h, h ++ [mkDemand None kw.1 kw.2]) s).
Proof. done. Qed.

Lemma add_run r s obj :
  heap s !! r = Some obj → persistent r s = false → r ∉ new s →
  add r s = Returns () (with_new (λ l, l ++ [r]) s).
Proof.
  intros Hr Hp Hn. unfold add, deref. mred.
  by rewrite Hr, Hp, bool_decide_eq_false_2.
Qed.

Lemma setattr_run f r s obj :
  heap s !! r = Some obj →
  setattr f r s =
    Returns ()
      (let s1 := with_heap (λ h, <[r := f obj]> h) s in
       if persistent r s && bool_decide (r ∉ dirty s)
       then with_dirty (λ l, l ++ [r]) s1 else s1).
Proof.
  intros Hr. unfold setattr, deref. mred. rewrite Hr.
  by destruct (persistent r s && bool_decide (r ∉ dirty s)).
Qed.

Lemma mark_deleted_run r s obj :
  heap s !! r = Some obj → persistent r s = true → r ∉ deleted s →
  mark_deleted r s = Returns () (with_deleted (λ l, l ++ [r]) s).
Proof.
  intros Hr Hp Hd. unfold mark_deleted, deref. mred.
  by rewrite Hr, Hp, bool_decide_eq_false_2.
Qed.

Lemma persistent_true r s pk :
  id <$> heap s !! r = Some (Some pk) → identity_map s !! pk = Some r →
  persistent r s = true.
Proof.
  unfold persistent. destruct (heap s !! r) as [obj|]; [|done].
  intros [= ->] Hm. by rewrite bool_decide_eq_true_2.
Qed.

Lemma insert_row_run r s obj :
  heap s !! r = Some obj → id obj = None →
  uuid_gen s (uuid_count s) ∉ row_id <$> table s →
  insert_row r s =
    Returns ()
      (let pk := uuid_gen s (uuid_count s) in
       with_identity_map (λ m, <[pk := r]> m)
         (with_heap (λ h, <[r := instance_of (row_of pk obj)]> h)
            (with_table (λ t, t ++ [row_of pk obj])
               (with_uuid_count S s)))).
Proof.
  intros Hr Hid Hfresh. unfold insert_row, next_id, deref. mred.
  rewrite Hr, Hid. simpl. by rewrite bool_decide_eq_false_2.
Qed.

Lemma update_row_run r s obj pk :
  heap s !! r = Some obj → id obj = Some pk →
  update_row r s =
    Returns ()
      (with_table (λ t,
         (λ row, if bool_decide (row_id row = pk) then row_of pk obj
                 else row) <$> t) s).
Proof.
  intros Hr Hid. unfold update_row, deref. mred. by rewrite Hr, Hid.
Qed.

Lemma delete_row_run r s obj pk :
  heap s !! r = Some obj → id obj = Some pk →
  delete_row r s =
    Returns ()
      (with_identity_map (λ m, base.delete pk m)
         (with_table (λ t, filter (λ row, row_id row ≠ pk) t) s)).
Proof.
  intros Hr Hid. unfold delete_row, deref. mred. by rewrite Hr, Hid.
Qed.

Lemma flush_clean s : clean s → flush s = Returns () s.
Proof. destruct s; intros (? & ? & ?); simpl in *; by subst. Qed.

Lemma flush_insert s r obj :
  new s = [r] → dirty s = [] → deleted s = [] →
  heap s !! r = Some obj → id obj = None →
  uuid_gen s (uuid_count s) ∉ row_id <$> table s →
  flush s =
    Returns ()
      (let pk := uuid_gen s (uuid_count s) in
       mkSession (table s ++ [row_of pk obj])
         (<[r := instance_of (row_of pk obj)]> (heap s))
         (<[pk := r]> (identity_map s)) [] [] []
         (uuid_gen s) (S (uuid_count s)) (faults s)).
Proof.
  destruct s; simpl; intros -> -> -> Hr Hid Hfresh. unfold flush. mred.
  erewrite insert_row_run by done. by mred.
Qed.

Lemma flush_update s r obj pk :
  new s = [] → dirty s = [r] → deleted s = [] →
  heap s !! r = Some obj → id obj = Some pk →
  flush s =
    Returns ()
      (mkSession
         ((λ row, if bool_decide (row_id row = pk) then row_of pk obj
                  else row) <$> table s)
         (heap s) (identity_map s) [] [] []
         (uuid_gen s) (uuid_count s) (faults s)).
Proof.
  destruct s; simpl; intros -> -> -> Hr Hid. unfold flush. mred.
  erewrite update_row_run by done. by mred.
Qed.

Lemma flush_delete s r obj pk :
  new s = [] → dirty s = [] → deleted s = [r] →
  heap s !! r = Some obj → id obj = Some pk →
  flush s =
    Returns ()
      (mkSession (filter (λ row, row_id row ≠ pk) (table s))
         (heap s) (base.delete pk (identity_map s)) [] [] []
         (uuid_gen s) (uuid_count s) (faults s)).
Proof.
  destruct s; simpl; intros -> -> -> Hr Hid. unfold flush. mred.
  erewrite delete_row_run by done. by mred.
Qed.

Lemma commit_run s s' :
  reliable s → flush s = Returns () s' → commit s = Returns () s'.
Proof.
  intros Hf Hfl. unfold commit.
  by rewrite (bind_returns _ _ _ _ _ (round_trip_run _ Hf)).
Qed.

Lemma refresh_run r s obj pk row :
  reliable s → heap s !! r = Some obj → id obj = Some pk →
  identity_map s !! pk = Some r →
  head (select_by_id pk (table s)) = Some row →
  refresh r s = Returns () (with_heap (λ h, <[r := instance_of row]> h) s).
Proof.
  intros Hf Hr Hid Hm Hrow. unfold refresh, round_trip, deref, persistent.
  mred. rewrite Hf, Hr, Hid. simpl. rewrite Hr, Hid, Hrow.
  by rewrite bool_decide_eq_true_2.
Qed.

Lemma materialize_hit row s r :
  identity_map s !! row_id row = Some r →
  materialize row s =
    Returns r (with_heap (λ h, <[r := instance_of row]> h) s).
Proof.
  intros Hm. unfold materialize, gets, mbind, M_bind. by rewrite Hm.
Qed.

Lemma materialize_miss row s :
  identity_map s !! row_id row = None →
  materialize row s =
    Returns (length (heap s))
      (with_identity_map (λ m, <[row_id row := length (heap s)]> m)
         (with_heap (λ h, h ++ [instance_of row]) s)).
Proof.
  intros Hm. unfold materialize, gets, mbind, M_bind. by rewrite Hm.
Qed.

Lemma query_all_run s :
  reliable s → clean s → query_all s = mapM materialize (table s) s.
Proof.
  intros Hf Hc. unfold query_all.
  rewrite (bind_returns _ _ _ _ _ (round_trip_run _ Hf)).
  by rewrite (bind_returns _ _ _ _ _ (flush_clean _ Hc)).
Qed.

Lemma query_filter_by_id_first_run pk s :
  reliable s → clean s →
  query_filter_by_id_first (Some pk) s =
    match head (select_by_id pk (table s)) with
    | Some row => (r ← materialize row; mret (Some r)) s
    | None => Returns None s
    end.
Proof.
  intros Hf Hc. unfold query_filter_by_id_first.
  rewrite (bind_returns _ _ _ _ _ (round_trip_run _ Hf)).
  rewrite (bind_returns _ _ _ _ _ (flush_clean _ Hc)).
  mred. by destruct (head _).
Qed.

(** *** Selections *)

Lemma select_by_id_absent pk rows :
  pk ∉ row_id <$> rows → select_by_id pk rows = [].
Proof.
  intros Hpk. unfold select_by_id. induction rows as [|row rows IH]; [done|].
  rewrite fmap_cons, not_elem_of_cons in Hpk. destruct Hpk as [Hne Hpk].
  rewrite filter_cons_False by (simpl; congruence). auto.
Qed.

Lemma select_by_id_first pk rows row :
  first_match pk rows row → head (select_by_id pk rows) = Some row.
Proof.
  intros (before & after & -> & Hrow & Hpk). unfold select_by_id.
  rewrite filter_app. fold (select_by_id pk before).
  rewrite select_by_id_absent by done. by rewrite filter_cons_True.
Qed.

Lemma select_by_id_head pk rows row :
  head (select_by_id pk rows) = Some row → first_match pk rows row.
Proof.
  unfold select_by_id. induction rows as [|x rows IH]; [done|].
  destruct (decide (row_id x = pk)) as [Hx|Hx].
  - rewrite filter_cons_True by done. intros [= ->].
    exists [], rows. repeat split; [done|]. simpl. apply not_elem_of_nil.
  - rewrite filter_cons_False by done.
    intros (before & after & -> & Hrow & Hpk)%IH.
    exists (x :: before), after. repeat split; [done|].
    rewrite fmap_cons, not_elem_of_cons. split; [congruence | done].
Qed.

Lemma select_by_id_updated pk rows obj :
  pk ∈ row_id <$> rows →
  head (select_by_id pk
          ((λ row, if bool_decide (row_id row = pk) then row_of pk obj
                   else row) <$> rows)) = Some (row_of pk obj).
Proof.
  unfold select_by_id. induction rows as [|x rows IH]; simpl.
  - by intros ?%elem_of_nil.
  - destruct (decide (row_id x = pk)) as [Hx|Hx].
    + intros _. rewrite bool_decide_eq_true_2 by done.
      by rewrite filter_cons_True.
    + intros [?|Hin]%elem_of_cons; [congruence|].
      rewrite bool_decide_eq_false_2 by done.
      rewrite filter_cons_False by done. auto.
Qed.

Lemma insert_snoc {A} (l : list A) (x y : A) :
  <[length l := y]> (l ++ [x]) = l ++ [y].
Proof. rewrite insert_app_r_alt by done. by rewrite Nat.sub_diag. Qed.

End SessionSteps.

(** ** What each method does to a clean session over a working connection *)


Section MethodSpecs.
Import ElevatorDemandRepository SessionModel.

Lemma create_spec (s : Session) (item : ElevatorDemandInput) :
  clean s → reliable s →
  uuid_gen s (uuid_count s) ∉ row_id <$> table s →
  create item s =
    Returns
      (mkOutput (uuid_gen s (uuid_count s)) (in_origin item)
         (in_destination item))
      (mkSession
         (table s ++
            [mkRow (uuid_gen s (uuid_count s)) (in_origin item)
               (in_destination item)])
         (heap s ++
            [mkDemand (Some (uuid_gen s (uuid_count s))) (in_origin item)
               (in_destination item)])
         (<[uuid_gen s (uuid_count s) := length (heap s)]> (identity_map s))
         [] [] [] (uuid_gen s) (S (uuid_count s)) []).
Proof.
  destruct s as [t h m n d del g c f]; unfold clean, reliable; simpl.
  intros (-> & -> & ->) -> Hfresh.
  unfold create. orm_ops.
  rewrite (bind_returns _ _ _ _ _ (init_run _ _)). norm.
  mstep_with add_run.
  erewrite bind_returns by
    (eapply commit_run; [done|]; eapply flush_insert; side).
  norm. rewrite insert_snoc.
  erewrite bind_returns by
    (eapply refresh_run; [side | side | side | side |];
     apply select_by_id_first; by exists t, []).
  norm. rewrite insert_snoc.
  mstep_with (getattr_run id).
  mstep_with (getattr_run origin).
  mstep_with (getattr_run destination).
  done.
Qed.

Lemma query_filter_by_id_first_absent (s : Session) (pk : UUID4) :
  clean s → reliable s → pk ∉ row_id <$> table s →
  query_filter_by_id_first (Some pk) s = Returns None s.
Proof.
  intros Hc Hf Hid. rewrite query_filter_by_id_first_run by done.
  by rewrite select_by_id_absent.
Qed.

Lemma get_item_absent (s : Session) (item_id : UUID4) :
  clean s → reliable s → item_id ∉ row_id <$> table s →
  get_item item_id s = Returns None s.
Proof. apply query_filter_by_id_first_absent. Qed.

Lemma get_item_known (s : Session) (item_id : UUID4) (row : Row) (r : ref) :
  clean s → reliable s → first_match item_id (table s) row →
  identity_map s !! item_id = Some r →
  get_item item_id s =
    Returns (Some r) (with_heap (λ h, <[r := instance_of row]> h) s).
Proof.
  intros Hc Hf Hrow Hm. unfold get_item. orm_ops.
  rewrite query_filter_by_id_first_run by done.
  rewrite (select_by_id_first _ _ _ Hrow).
  destruct Hrow as (_ & _ & _ & <- & _).
  by rewrite (bind_returns _ _ _ _ _ (materialize_hit _ _ _ Hm)).
Qed.

Lemma get_item_unknown (s : Session) (item_id : UUID4) (row : Row) :
  clean s → reliable s → first_match item_id (table s) row →
  identity_map s !! item_id = None →
  get_item item_id s =
    Returns (Some (length (heap s)))
      (with_identity_map (λ m, <[item_id := length (heap s)]> m)
         (with_heap (λ h, h ++ [instance_of row]) s)).
Proof.
  intros Hc Hf Hrow Hm. unfold get_item. orm_ops.
  rewrite query_filter_by_id_first_run by done.
  rewrite (select_by_id_first _ _ _ Hrow).
  destruct Hrow as (_ & _ & _ & <- & _).
  by rewrite (bind_returns _ _ _ _ _ (materialize_miss _ _ Hm)).
Qed.

Lemma live_inv s r pk :
  live s r pk →
  ∃ obj, heap s !! r = Some obj ∧ id obj = Some pk ∧
         identity_map s !! pk = Some r ∧ pk ∈ row_id <$> table s.
Proof.
  intros (Hobj & Hm & Hrow). destruct (heap s !! r) as [obj|] eqn:Hr;
    [|done].
  injection Hobj as Hid. by exists obj.
Qed.

Lemma update_spec (s : Session) (item : ref) (pk : UUID4)
    (new_data : ElevatorDemandInput) :
  clean s → reliable s → live s item pk →
  update item new_data s =
    Returns (mkOutput pk (in_origin new_data) (in_destination new_data))
      (mkSession
         ((λ row, if bool_decide (row_id row = pk)
                  then mkRow pk (in_origin new_data)
                         (in_destination new_data)
                  else row) <$> table s)
         (<[item := mkDemand (Some pk) (in_origin new_data)
                      (in_destination new_data)]> (heap s))
         (identity_map s) [] [] [] (uuid_gen s) (uuid_count s) []).
Proof.
  intros Hc Hf (obj & Hr & Hid & Hm & Hrow)%live_inv.
  assert (item < length (heap s)) as Hlt by by eapply lookup_lt_Some.
  assert (persistent item s = true) as Hp.
  { apply (persistent_true _ _ pk); [by rewrite Hr, <- Hid | done]. }
  destruct s as [t h m n d del g c f]; unfold clean, reliable in *;
    simpl in *.
  destruct Hc as (-> & -> & ->). subst f.
  unfold update. orm_ops.
  erewrite bind_returns by (by eapply setattr_run).
  norm. rewrite Hp. simpl.
  erewrite bind_returns by
    (eapply setattr_run; simpl; by apply list_lookup_insert_eq).
  norm. rewrite list_insert_insert_eq.
  rewrite (bool_decide_eq_false_2 (item ∉ [item]))
    by (intros Hn; apply Hn; constructor).
  rewrite andb_false_r.
  erewrite bind_returns by
    (eapply commit_run; [done|]; eapply flush_update; side).
  norm.
  erewrite bind_returns by
    (eapply refresh_run; [side | side | side | side |];
     exact (select_by_id_updated pk t
              (mkDemand (Some pk) (in_origin new_data)
                 (in_destination new_data)) Hrow)).
  norm. rewrite list_insert_insert_eq.
  mstep_with deref_run.
  done.
Qed.

Lemma delete_spec (s : Session) (item : ref) (pk : UUID4) :
  clean s → reliable s → live s item pk →
  delete item s =
    Returns false
      (mkSession (filter (λ row, row_id row ≠ pk) (table s)) (heap s)
         (base.delete pk (identity_map s)) [] [] []
         (uuid_gen s) (uuid_count s) []).
Proof.
  intros Hc Hf (obj & Hr & Hid & Hm & Hrow)%live_inv.
  assert (persistent item s = true) as Hp.
  { apply (persistent_true _ _ pk); [by rewrite Hr, <- Hid | done]. }
  destruct s as [t h m n d del g c f]; unfold clean, reliable in *;
    simpl in *.
  destruct Hc as (-> & -> & ->). subst f.
  unfold delete. orm_ops.
  erewrite bind_returns by (by eapply (getattr_run id)).
  rewrite Hid.
  erewrite bind_returns by
    (eapply mark_deleted_run; simpl; [done | done | apply not_elem_of_nil]).
  norm.
  erewrite bind_returns by
    (eapply commit_run; [done|]; by eapply flush_delete).
  norm.
  erewrite bind_returns by
    (eapply query_filter_by_id_first_absent; [done | done |]; simpl;
     intros (row & -> & Hin)%list_elem_of_fmap;
     by apply list_elem_of_filter in Hin as [Hne _]).
  done.
Qed.

Lemma update_wf (s : Session) (item : ref) (pk : UUID4)
    (new_data : ElevatorDemandInput) :
  wf s → reliable s → live s item pk →
  ∃ s',
    update item new_data s =
      Returns (mkOutput pk (in_origin new_data) (in_destination new_data))
        s' ∧
    wf s' ∧ reliable s' ∧ live s' item pk.
Proof.
  intros [Hc Hok Hnd] Hf Hlive.
  pose proof (live_inv _ _ _ Hlive) as (obj & Hr & Hid & Hm & Hrow).
  assert (item < length (heap s)) as Hlt by by eapply lookup_lt_Some.
  assert (∀ t : list Row,
            row_id <$> ((λ row, if bool_decide (row_id row = pk)
                               then mkRow pk (in_origin new_data)
                                      (in_destination new_data)
                               else row) <$> t) = row_id <$> t) as Hids.
  { intros t. rewrite <- list_fmap_compose. apply list_fmap_ext.
    intros _ row _. simpl. by case_bool_decide. }
  eexists. split; [by apply update_spec|].
  split; [split|split]; simpl.
  - done.
  - intros pk' r' Hpk'. simpl. destruct (decide (r' = item)) as [->|Hne].
    + rewrite list_lookup_insert_eq by done. simpl.
      pose proof (Hok _ _ Hpk') as Hr'. simpl in Hr'.
      rewrite Hr in Hr'. simpl in Hr'. congruence.
    + rewrite list_lookup_insert_ne by done. exact (Hok _ _ Hpk').
  - by rewrite Hids.
  - done.
  - repeat split; simpl.
    + by rewrite list_lookup_insert_eq.
    + done.
    + by rewrite Hids.
Qed.

Lemma delete_wf (s : Session) (item : ref) (pk : UUID4) :
  wf s → reliable s → live s item pk →
  ∃ s', delete item s = Returns false s' ∧ wf s' ∧ reliable s'.
Proof.
  intros [Hc Hok Hnd] Hf Hlive.
  eexists. split; [by apply delete_spec|].
  split; [split|]; simpl.
  - done.
  - by apply map_Forall_delete.
  - eapply sublist_NoDup; [exact Hnd | apply fmap_sublist, sublist_filter].
  - done.
Qed.

End MethodSpecs.

(** ** Listing *)

Section Listing.
Import ElevatorDemandRepository SessionModel.


Lemma identity_ok_lookup s pk r :
  identity_ok s → identity_map s !! pk = Some r →
  id <$> heap s !! r = Some (Some pk).
Proof. intros Hok Hm. exact (Hok pk r Hm). Qed.

Lemma materialize_spec row s :
  identity_ok s →
  ∃ r s',
    materialize row s = Returns r s' ∧ identity_ok s' ∧ same_storage s s' ∧
    heap s' !! r = Some (instance_of row) ∧
    identity_map s' !! row_id row = Some r ∧
    (∀ r0 obj, heap s !! r0 = Some obj →
       identity_map s !! row_id row ≠ Some r0 → heap s' !! r0 = Some obj) ∧
    (∀ pk, pk ≠ row_id row →
       identity_map s' !! pk = identity_map s !! pk).
Proof.
  intros Hok. destruct (identity_map s !! row_id row) as [r|] eqn:Hm.
  - exists r, (with_heap (λ h, <[r := instance_of row]> h) s).
    pose proof (identity_ok_lookup _ _ _ Hok Hm) as Hr.
    assert (r < length (heap s)) as Hlt.
    { destruct (heap s !! r) eqn:E; [by eapply lookup_lt_Some | done]. }
    split; [by apply materialize_hit|].
    destruct s as [t h m n d del g c f]; simpl in *.
    repeat split; simpl.
    + intros pk r' Hpk. simpl in *.
      destruct (decide (r' = r)) as [->|Hne].
      * rewrite list_lookup_insert_eq by done. simpl.
        pose proof (Hok pk r Hpk) as Hr'. simpl in Hr'. congruence.
      * rewrite list_lookup_insert_ne by done. exact (Hok pk r' Hpk).
    + by apply list_lookup_insert_eq.
    + done.
    + intros r0 obj Hr0 Hne. rewrite list_lookup_insert_ne; [done|].
      congruence.
  - exists (length (heap s)),
      (with_identity_map (λ m, <[row_id row := length (heap s)]> m)
         (with_heap (λ h, h ++ [instance_of row]) s)).
    split; [by apply materialize_miss|].
    destruct s as [t h m n d del g c f]; simpl in *.
    repeat split; simpl.
    + intros pk r' Hpk. simpl in *.
      apply lookup_insert_Some in Hpk as [[<- <-]|[Hne Hpk]].
      * by rewrite list_lookup_middle.
      * pose proof (Hok pk r' Hpk) as Hr'. simpl in Hr'.
        destruct (h !! r') eqn:E; [|done].
        by rewrite (lookup_app_l_Some _ _ _ _ E).
    + by apply list_lookup_middle.
    + by rewrite lookup_insert_eq.
    + intros r0 obj Hr0 _. by apply lookup_app_l_Some.
    + intros pk Hne. by rewrite lookup_insert_ne.
Qed.

Lemma same_storage_trans s1 s2 s3 :
  same_storage s1 s2 → same_storage s2 s3 → same_storage s1 s3.
Proof.
  unfold same_storage. intros (?&?&?&?&?&?&?) (?&?&?&?&?&?&?).
  repeat split; congruence.
Qed.

Lemma mapM_materialize rows : ∀ s,
  identity_ok s → NoDup (row_id <$> rows) →
  ∃ refs s',
    mapM materialize rows s = Returns refs s' ∧ identity_ok s' ∧
    same_storage s s' ∧
    Forall2 (λ r row, heap s' !! r = Some (instance_of row)) refs rows ∧
    (∀ r0 obj, heap s !! r0 = Some obj →
       (∀ row, row ∈ rows → identity_map s !! row_id row ≠ Some r0) →
       heap s' !! r0 = Some obj).
Proof.
  induction rows as [|row rows IH]; intros s Hok Hnd.
  - exists [], s. by repeat split.
  - rewrite fmap_cons in Hnd. apply NoDup_cons in Hnd as [Hrow Hnd].
    destruct (materialize_spec row s Hok)
      as (r & s1 & Hrun & Hok1 & Hsame1 & Hr & Hm & Hkeep1 & Hother).
    destruct (IH s1 Hok1 Hnd) as (refs & s' & Hruns & Hok' & Hsame & Hall & Hkeep).
    exists (r :: refs), s'.
    split; [|split; [done|split; [by eapply same_storage_trans|split]]].
    + simpl. rewrite (bind_returns _ _ _ _ _ Hrun).
      by rewrite (bind_returns _ _ _ _ _ Hruns).
    + constructor; [|done]. apply Hkeep; [done|].
      intros row' Hrow' Hm'.
      pose proof (identity_ok_lookup _ _ _ Hok1 Hm') as Hr'.
      rewrite Hr in Hr'. simpl in Hr'. injection Hr' as Heq.
      apply Hrow. rewrite Heq. by apply list_elem_of_fmap_2.
    + intros r0 obj Hr0 Hfree. apply Hkeep.
      * apply Hkeep1; [done|]. apply Hfree. by left.
      * intros row' Hrow'. rewrite Hother.
        -- apply Hfree. by right.
        -- intros Heq. apply Hrow. rewrite <- Heq.
           by apply list_elem_of_fmap_2.
Qed.

Lemma mapM_project refs rows s :
  Forall2 (λ r row, heap s !! r = Some (instance_of row)) refs rows →
  mapM (λ item, d ← deref item; ElevatorDemandOutput_of_dict d) refs s
    = Returns (output_of <$> rows) s.
Proof.
  induction 1 as [|r row refs rows Hr _ IH]; [done|]. simpl.
  erewrite bind_returns.
  2:{ by rewrite (bind_returns _ _ _ _ _ (deref_run _ _ _ Hr)). }
  by rewrite (bind_returns _ _ _ _ _ IH).
Qed.

Lemma get_all_spec (s : Session) :
  wf s → reliable s →
  ∃ s', get_all s = Returns (output_of <$> table s) s' ∧
        wf s' ∧ same_storage s s'.
Proof.
  intros [Hc Hok Hnd] Hf.
  destruct (mapM_materialize (table s) s Hok Hnd)
    as (refs & s' & Hrun & Hok' & Hsame & Hall & _).
  exists s'. split.
  - unfold get_all. orm_ops.
    erewrite bind_returns by (rewrite query_all_run by done; exact Hrun).
    by apply mapM_project.
  - split; [|done]. destruct Hsame as (Ht & Hn & Hd & Hdel & _).
    split; [| done | by rewrite Ht].
    destruct Hc as (? & ? & ?). repeat split; congruence.
Qed.

End Listing.

(** ** Creating several records *)


Section Creating.
Import ElevatorDemandRepository SessionModel.

Lemma draws_S s s1 n :
  uuid_gen s1 = uuid_gen s → uuid_count s1 = S (uuid_count s) →
  draws s (S n) = uuid_gen s (uuid_count s) :: draws s1 n.
Proof.
  intros Hg Hc. unfold draws. rewrite Hg, Hc. simpl.
  rewrite Nat.add_0_r. f_equal. rewrite <- fmap_S_seq, <- list_fmap_compose.
  apply list_fmap_ext. intros _ k _. simpl. f_equal. lia.
Qed.

Lemma created_cons s s1 item inputs :
  uuid_gen s1 = uuid_gen s → uuid_count s1 = S (uuid_count s) →
  created s (item :: inputs) =
    mkRow (uuid_gen s (uuid_count s)) (in_origin item) (in_destination item)
      :: created s1 inputs.
Proof.
  intros Hg Hc. unfold created. rewrite imap_cons, Hg, Hc, Nat.add_0_r.
  f_equal. apply imap_ext. intros k x _. simpl. do 2 f_equal. lia.
Qed.

Lemma create_wf (s : Session) (item : ElevatorDemandInput) :
  wf s → reliable s →
  uuid_gen s (uuid_count s) ∉ row_id <$> table s →
  ∃ s',
    create item s =
      Returns (mkOutput (uuid_gen s (uuid_count s)) (in_origin item)
                 (in_destination item)) s' ∧
    wf s' ∧ reliable s' ∧
    table s' =
      table s ++ [mkRow (uuid_gen s (uuid_count s)) (in_origin item)
                    (in_destination item)] ∧
    uuid_gen s' = uuid_gen s ∧ uuid_count s' = S (uuid_count s).
Proof.
  intros [Hc Hok Hnd] Hf Hfresh. eexists. split.
  { by apply create_spec. }
  split; [|done]. split; simpl.
  - done.
  - intros pk r. simpl. intros [[<- <-]|[Hne Hpk]]%lookup_insert_Some.
    + by rewrite list_lookup_middle.
    + pose proof (Hok pk r Hpk) as Hr. simpl in Hr.
      destruct (heap s !! r) eqn:E; [|done].
      by rewrite (lookup_app_l_Some _ _ _ _ E).
  - rewrite fmap_app. apply NoDup_app. split; [done|]. split.
    + intros pk Hpk ->%list_elem_of_singleton. done.
    + apply NoDup_singleton.
Qed.

Lemma create_many inputs : ∀ s,
  wf s → reliable s →
  NoDup ((row_id <$> table s) ++ draws s (length inputs)) →
  ∃ s',
    mapM create inputs s = Returns (output_of <$> created s inputs) s' ∧
    wf s' ∧ reliable s' ∧ table s' = table s ++ created s inputs.
Proof.
  induction inputs as [|item inputs IH]; intros s Hwf Hf Hnd.
  - exists s. repeat split; try done; try apply Hwf.
    unfold created. simpl. by rewrite app_nil_r.
  - simpl in Hnd.
    rewrite (draws_S s (with_uuid_count S s)) in Hnd by done.
    apply NoDup_app in Hnd as (Hnd_t & Hdisj & Hnd_d).
    apply NoDup_cons in Hnd_d as [Hhead Hnd_d].
    destruct (create_wf s item Hwf Hf)
      as (s1 & Hrun & Hwf1 & Hf1 & Ht1 & Hg1 & Hc1).
    { intros Hin. apply (Hdisj _ Hin). by left. }
    assert (draws s1 (length inputs)
            = draws (with_uuid_count S s) (length inputs)) as Hdraws.
    { unfold draws. by rewrite Hg1, Hc1. }
    destruct (IH s1 Hwf1 Hf1) as (s' & Hruns & Hwf' & Hf' & Ht').
    { rewrite Ht1, fmap_app, <- app_assoc, Hdraws. simpl.
      apply NoDup_app. split; [done|]. split.
      - intros pk Hpk Hin. by apply (Hdisj _ Hpk).
      - by apply NoDup_cons. }
    exists s'. rewrite (created_cons s s1) by done.
    split; [|split; [done|split; [done|]]].
    + simpl. rewrite (bind_returns _ _ _ _ _ Hrun).
      by rewrite (bind_returns _ _ _ _ _ Hruns).
    + rewrite Ht', Ht1, <- app_assoc. done.
Qed.

End Creating.


Section Claims.
Import ElevatorDemandRepository SessionModel.

Lemma sample_session_wf : wf sample_session.
Proof.
  split.
  - done.
  - apply map_Forall_singleton. reflexivity.
  - apply NoDup_singleton.
Qed.

Lemma sample_session_live : live sample_session 0 7%N.
Proof. repeat split. simpl. by left. Qed.

Lemma delete_second_round_trip (s : Session) (item : ref) (pk : UUID4)
    (e : Exn) (fs : list (option Exn)) :
  clean s → live s item pk → faults s = None :: Some e :: fs →
  delete item s = Raises e.
Proof.
  intros Hc (obj & Hr & Hid & Hm & Hrow)%live_inv Hfaults.
  assert (persistent item s = true) as Hp.
  { apply (persistent_true _ _ pk); [by rewrite Hr, <- Hid | done]. }
  destruct s as [t h m n d del g c f]; unfold clean in *; simpl in *.
  destruct Hc as (-> & -> & ->). subst f.
  unfold delete. orm_ops.
  erewrite bind_returns by (by eapply (getattr_run id)).
  rewrite Hid.
  erewrite bind_returns by
    (eapply mark_deleted_run; simpl; [done | done | apply not_elem_of_nil]).
  norm.
  erewrite bind_returns.
  2:{ unfold commit. erewrite bind_returns by reflexivity. norm.
      by eapply flush_delete. }
  simpl. by apply bind_raises.
Qed.

(** C1. Whatever the session is, [delete] returns [b] exactly when, in this
    order, [item.id] is read, [session.delete(item)] and [session.commit()]
    return, and the query by the identifier read first returns; [b] is true
    exactly when that query found a record.  On the session model, for a
    live record of a clean session over a working connection, the rows with
    the record's identifier are gone from the table, nothing is left pending
    and the query finds nothing, so [delete] returns false.  The commit is a
    round trip of its own, made before the query: over a connection that
    holds for one round trip and then fails with [e], [delete] raises
    [e]. *)
Theorem delete_reports_whether_the_row_is_still_found :
  (∀ (S : Type) (orm : ORM S) (item : ref) (s s' : S) (b : bool),
     delete item s = Returns b s' ↔
     ∃ id_ s0 s1 s2 found,
       getattr_id item s = Returns id_ s0 ∧
       session_delete item s0 = Returns () s1 ∧
       session_commit s1 = Returns () s2 ∧
       session_query_filter_by_id_first id_ s2 = Returns found s' ∧
       (b = true ↔ ∃ r, found = Some r)) ∧
  (∀ (s : Session) (item : ref) (pk : UUID4),
     clean s → reliable s → live s item pk →
     ∃ s',
       delete item s = Returns false s' ∧
       table s' = filter (λ row, row_id row ≠ pk) (table s) ∧
       (pk ∉ row_id <$> table s') ∧
       clean s') ∧
  (∀ (s : Session) (item : ref) (pk : UUID4) (e : Exn)
     (fs : list (option Exn)),
     clean s → live s item pk → faults s = None :: Some e :: fs →
     delete item s = Raises e).
Proof.
  split; [|split].
  - intros S orm item s s' b. unfold delete. split.
    + intros (id_ & s0 & Hid & H)%bind_returns_inv.
      apply bind_returns_inv in H as ([] & s1 & Hdel & H).
      apply bind_returns_inv in H as ([] & s2 & Hcommit & H).
      apply bind_returns_inv in H as (found & s3 & Hq & H).
      apply mret_returns_inv in H as [-> ->].
      exists id_, s0, s1, s2, found. repeat split; try done.
      * destruct found as [r|]; [by exists r | done].
      * intros [r ->]. done.
    + intros (id_ & s0 & s1 & s2 & found & Hid & Hdel & Hcommit & Hq & Hb).
      rewrite (bind_returns _ _ _ _ _ Hid), (bind_returns _ _ _ _ _ Hdel).
      rewrite (bind_returns _ _ _ _ _ Hcommit), (bind_returns _ _ _ _ _ Hq).
      unfold mret, M_ret. f_equal.
      destruct found as [r|]; simpl.
      * symmetry. apply Hb. by exists r.
      * destruct b; [|done]. destruct (proj1 Hb eq_refl) as [r [=]].
  - intros s item pk Hc Hf Hlive. eexists.
    split; [by apply delete_spec|]. simpl. repeat split.
    intros (row & -> & Hin)%list_elem_of_fmap.
    by apply list_elem_of_filter in Hin as [Hne _].
  - apply delete_second_round_trip.
Qed.

Lemma delete_reports_whether_the_row_is_still_found_witness :
  (delete (orm := Keeping_ORM) 0 sample_session
     = Returns true sample_session ∧
   ∃ id_ s0 s1 s2 found,
     getattr_id (ORM := Keeping_ORM) 0 sample_session = Returns id_ s0 ∧
     session_delete (ORM := Keeping_ORM) 0 s0 = Returns () s1 ∧
     session_commit (ORM := Keeping_ORM) s1 = Returns () s2 ∧
     session_query_filter_by_id_first (ORM := Keeping_ORM) id_ s2
       = Returns found sample_session ∧
     (true = true ↔ ∃ r, found = Some r)) ∧
  (clean sample_session ∧ reliable sample_session ∧
   live sample_session 0 7%N ∧
   ∃ s',
     delete 0 sample_session = Returns false s' ∧
     table s' = filter (λ row, row_id row ≠ 7%N) (table sample_session) ∧
     (7%N ∉ row_id <$> table s') ∧
     clean s') ∧
  (clean failing_sample_session ∧ live failing_sample_session 0 7%N ∧
   faults failing_sample_session = [None; Some OperationalError] ∧
   delete 0 failing_sample_session = Raises OperationalError).
Proof.
  pose proof delete_reports_whether_the_row_is_still_found
    as (Hany & Hmodel & Htrip).
  split; [|split].
  - split; [reflexivity|].
    exact (proj1 (Hany Session Keeping_ORM 0 sample_session sample_session
                    true) eq_refl).
  - split; [done|]. split; [done|]. split; [exact sample_session_live|].
    exact (Hmodel sample_session 0 7%N (conj eq_refl (conj eq_refl eq_refl))
             eq_refl sample_session_live).
  - assert (live failing_sample_session 0 7%N) as Hlive.
    { repeat split. simpl. by left. }
    split; [done|]. split; [exact Hlive|]. split; [done|].
    exact (Htrip failing_sample_session 0 7%N OperationalError []
             (conj eq_refl (conj eq_refl eq_refl)) Hlive eq_refl).
Defined.

(** C2. In a clean session over a working connection, when the identifier
    the generator draws is new to the table, [create] returns an output, and
    [get_item] on the output's identifier then returns a record whose
    [origin] and [destination] are those of the input, and whose identifier
    is the output's. *)
Theorem create_then_get_item :
  ∀ (s : Session) (item : ElevatorDemandInput),
    clean s → reliable s →
    uuid_gen s (uuid_count s) ∉ row_id <$> table s →
    ∃ out s1 r s2,
      create item s = Returns out s1 ∧
      get_item (out_id out) s1 = Returns (Some r) s2 ∧
      heap s2 !! r =
        Some (mkDemand (Some (out_id out)) (in_origin item)
                (in_destination item)).
Proof.
  intros s item Hc Hf Hfresh. eexists _, _, _, _.
  split; [by apply create_spec|]. simpl. split.
  - eapply get_item_known; try done.
    + exists (table s), []. by repeat split.
    + simpl. by rewrite lookup_insert_eq.
  - simpl. rewrite insert_snoc. by apply list_lookup_middle.
Qed.

Lemma create_then_get_item_witness :
  clean sample_session ∧ reliable sample_session ∧
  (uuid_gen sample_session (uuid_count sample_session)
     ∉ row_id <$> table sample_session) ∧
  ∃ out s1 r s2,
    create (mkInput "C" "D") sample_session = Returns out s1 ∧
    get_item (out_id out) s1 = Returns (Some r) s2 ∧
    heap s2 !! r = Some (mkDemand (Some (out_id out)) "C" "D").
Proof.
  assert (uuid_gen sample_session (uuid_count sample_session)
            ∉ row_id <$> table sample_session) as Hfresh.
  { simpl. by intros [=]%list_elem_of_singleton. }
  split; [done|]. split; [done|]. split; [exact Hfresh|].
  exact (create_then_get_item sample_session (mkInput "C" "D")
           (conj eq_refl (conj eq_refl eq_refl)) eq_refl Hfresh).
Defined.

(** C3. [update], given a live record of a clean session over a working
    connection and an input, returns an output with the record's identifier
    and the input's fields.  It writes only [origin] and [destination]: the
    instance keeps its identifier, the other instances and the rows of other
    identifiers are as they were.  [get_item] on the record's identifier
    then returns the same record, which reads as the input with the
    identifier unchanged. *)
Theorem update_then_get_item :
  ∀ (s : Session) (item : ref) (pk : UUID4) (new_data : ElevatorDemandInput),
    clean s → reliable s → live s item pk →
    ∃ s1 s2,
      update item new_data s =
        Returns (mkOutput pk (in_origin new_data) (in_destination new_data))
          s1 ∧
      heap s1 =
        <[item := mkDemand (Some pk) (in_origin new_data)
                    (in_destination new_data)]> (heap s) ∧
      table s1 =
        (λ row, if bool_decide (row_id row = pk)
                then mkRow pk (in_origin new_data) (in_destination new_data)
                else row) <$> table s ∧
      get_item pk s1 = Returns (Some item) s2 ∧
      heap s2 !! item =
        Some (mkDemand (Some pk) (in_origin new_data)
                (in_destination new_data)).
Proof.
  intros s item pk new_data Hc Hf Hlive.
  pose proof (live_inv _ _ _ Hlive) as (obj & Hr & Hid & Hm & Hrow).
  assert (item < length (heap s)) as Hlt by by eapply lookup_lt_Some.
  eexists _, _. split; [by apply update_spec|]. simpl.
  split; [done|]. split; [done|]. split.
  - eapply get_item_known; try done. simpl.
    apply select_by_id_head.
    exact (select_by_id_updated pk (table s)
             (mkDemand (Some pk) (in_origin new_data)
                (in_destination new_data)) Hrow).
  - simpl. rewrite list_insert_insert_eq. by apply list_lookup_insert_eq.
Qed.

Lemma update_then_get_item_witness :
  clean sample_session ∧ reliable sample_session ∧
  live sample_session 0 7%N ∧
  ∃ s1 s2,
    update 0 (mkInput "C" "D") sample_session =
      Returns (mkOutput 7%N "C" "D") s1 ∧
    heap s1 = <[0 := mkDemand (Some 7%N) "C" "D"]> (heap sample_session) ∧
    table s1 =
      (λ row, if bool_decide (row_id row = 7%N) then mkRow 7%N "C" "D"
              else row) <$> table sample_session ∧
    get_item 7%N s1 = Returns (Some 0) s2 ∧
    heap s2 !! 0 = Some (mkDemand (Some 7%N) "C" "D").
Proof.
  split; [done|]. split; [done|]. split; [exact sample_session_live|].
  apply (update_then_get_item sample_session 0 7%N (mkInput "C" "D"));
    [done | done | exact sample_session_live].
Defined.

(** C4. After [delete] of a live record of a clean session over a working
    connection has returned, [get_item] on the record's identifier returns
    [None]. *)
Theorem delete_then_get_item :
  ∀ (s : Session) (item : ref) (pk : UUID4),
    clean s → reliable s → live s item pk →
    ∃ b s1 s2,
      delete item s = Returns b s1 ∧
      get_item pk s1 = Returns None s2.
Proof.
  intros s item pk Hc Hf Hlive. eexists _, _, _.
  split; [by apply delete_spec|].
  apply get_item_absent; [done | done |]. simpl.
  intros (row & -> & Hin)%list_elem_of_fmap.
  by apply list_elem_of_filter in Hin as [Hne _].
Qed.

Lemma delete_then_get_item_witness :
  clean sample_session ∧ reliable sample_session ∧
  live sample_session 0 7%N ∧
  ∃ b s1 s2,
    delete 0 sample_session = Returns b s1 ∧
    get_item 7%N s1 = Returns None s2.
Proof.
  split; [done|]. split; [done|]. split; [exact sample_session_live|].
  apply (delete_then_get_item sample_session 0 7%N);
    [done | done | exact sample_session_live].
Defined.

(** C5. In a well-formed session over a working connection, [get_item]
    returns the first row of the table whose identifier is the one asked
    for, as an instance that reads as that row; when no row has the
    identifier it returns [None], and does not raise. *)
Theorem get_item_first_match_or_none :
  ∀ (s : Session) (item_id : UUID4),
    wf s → reliable s →
    (∀ row, first_match item_id (table s) row →
       ∃ r s', get_item item_id s = Returns (Some r) s' ∧
               heap s' !! r = Some (instance_of row) ∧
               table s' = table s) ∧
    (item_id ∉ row_id <$> table s → get_item item_id s = Returns None s).
Proof.
  intros s item_id [Hc Hok Hnd] Hf. split.
  - intros row Hrow.
    destruct (identity_map s !! item_id) as [r|] eqn:Hm.
    + eexists _, _. split; [by apply get_item_known|]. simpl.
      split; [|done]. apply list_lookup_insert_eq.
      pose proof (Hok _ _ Hm) as Hr. simpl in Hr.
      destruct (heap s !! r) eqn:E; [by eapply lookup_lt_Some | done].
    + eexists _, _. split; [by apply get_item_unknown|]. simpl.
      split; [|done]. by apply list_lookup_middle.
  - by apply get_item_absent.
Qed.

Lemma get_item_first_match_or_none_witness :
  wf sample_session ∧ reliable sample_session ∧
  (∀ row, first_match 7%N (table sample_session) row →
     ∃ r s', get_item 7%N sample_session = Returns (Some r) s' ∧
             heap s' !! r = Some (instance_of row) ∧
             table s' = table sample_session) ∧
  (7%N ∉ row_id <$> table sample_session →
   get_item 7%N sample_session = Returns None sample_session).
Proof.
  split; [exact sample_session_wf|]. split; [done|].
  exact (get_item_first_match_or_none sample_session 7%N
           sample_session_wf eq_refl).
Defined.

(** C6. In a well-formed session over a working connection, [get_all]
    returns the projection of every row of the table, in the order of the
    table.  When the identifiers the generator draws next are new and
    distinct, creating records from [inputs] and listing again gives a
    result whose size is the previous size plus the number of inputs, and in
    which every output of the creations is present by identifier. *)
Theorem get_all_after_creates :
  ∀ (s : Session) (inputs : list ElevatorDemandInput),
    wf s → reliable s →
    NoDup ((row_id <$> table s) ++ draws s (length inputs)) →
    ∃ before s1 outs s2 after s3,
      get_all s = Returns before s1 ∧
      before = output_of <$> table s ∧
      mapM create inputs s1 = Returns outs s2 ∧
      get_all s2 = Returns after s3 ∧
      after = output_of <$> table s2 ∧
      length after = length before + length inputs ∧
      ∀ out, out ∈ outs → out_id out ∈ out_id <$> after.
Proof.
  intros s inputs Hwf Hf Hnd.
  destruct (get_all_spec s Hwf Hf) as (s1 & Hall & Hwf1 & Hsame).
  destruct Hsame as (Ht & _ & _ & _ & Hg & Hc & Hfaults).
  assert (reliable s1) as Hf1 by (unfold reliable in *; congruence).
  assert (draws s1 (length inputs) = draws s (length inputs)) as Hdraws.
  { unfold draws. by rewrite Hg, Hc. }
  destruct (create_many inputs s1 Hwf1 Hf1) as (s2 & Hcr & Hwf2 & Hf2 & Ht2).
  { by rewrite Ht, Hdraws. }
  destruct (get_all_spec s2 Hwf2 Hf2) as (s3 & Hall2 & _ & _).
  exists (output_of <$> table s), s1, (output_of <$> created s1 inputs), s2,
    (output_of <$> table s2), s3.
  repeat split; try done.
  - rewrite Ht2, Ht, !length_fmap, length_app. unfold created.
    by rewrite length_imap.
  - intros out Hout. apply list_elem_of_fmap_2.
    rewrite Ht2, fmap_app. apply elem_of_app. by right.
Qed.

Lemma get_all_after_creates_witness :
  wf sample_session ∧ reliable sample_session ∧
  NoDup ((row_id <$> table sample_session) ++ draws sample_session 2) ∧
  ∃ before s1 outs s2 after s3,
    get_all sample_session = Returns before s1 ∧
    before = output_of <$> table sample_session ∧
    mapM create [mkInput "C" "D"; mkInput "E" "F"] s1 = Returns outs s2 ∧
    get_all s2 = Returns after s3 ∧
    after = output_of <$> table s2 ∧
    length after = length before + 2 ∧
    ∀ out, out ∈ outs → out_id out ∈ out_id <$> after.
Proof.
  assert (NoDup ((row_id <$> table sample_session) ++ draws sample_session 2))
    as Hnd.
  { apply (bool_decide_unpack _). vm_compute. exact I. }
  split; [exact sample_session_wf|]. split; [done|]. split; [exact Hnd|].
  exact (get_all_after_creates sample_session
           [mkInput "C" "D"; mkInput "E" "F"] sample_session_wf eq_refl Hnd).
Defined.

Lemma mapM_project_inv items : ∀ s outs s',
  mapM (λ item, d ← deref item; ElevatorDemandOutput_of_dict d) items s
    = Returns outs s' →
  s' = s ∧
  Forall2
    (λ item out,
       heap s !! item =
         Some (mkDemand (Some (out_id out)) (out_origin out)
                 (out_destination out)))
    items outs.
Proof.
  induction items as [|item items IH]; intros s outs s'; simpl.
  - intros [-> ->]%mret_returns_inv. by split.
  - intros (out & s1 & Hout & H)%bind_returns_inv.
    apply bind_returns_inv in H as (outs' & s2 & Houts & H).
    apply mret_returns_inv in H as [-> ->].
    apply bind_returns_inv in Hout as (obj & s0 & Hobj & Hout).
    unfold deref in Hobj. destruct (heap s !! item) as [obj'|] eqn:Hitem;
      [|done].
    injection Hobj as -> ->.
    unfold ElevatorDemandOutput_of_dict, ElevatorDemandOutput_init in Hout.
    destruct obj as [[pk|] o d]; simpl in Hout; [|done].
    apply mret_returns_inv in Hout as [-> ->].
    destruct (IH _ _ _ Houts) as [-> Hall]. split; [done|].
    by constructor.
Qed.

(** C9. Whenever [get_all] returns, its result is the element-wise
    projection of what the query returned: the query returned a list of
    records in the same final state, and the outputs match it one for one
    and in order, each output holding the [id], [origin] and [destination]
    its record reads as.  In a well-formed session over a working connection
    [get_all] does return. *)
Theorem get_all_projects_the_query_result :
  ∀ (s : Session),
    (∀ outs s',
       get_all s = Returns outs s' →
       ∃ items,
         session_query_all s = Returns items s' ∧
         Forall2
           (λ item out,
              heap s' !! item =
                Some (mkDemand (Some (out_id out)) (out_origin out)
                        (out_destination out)))
           items outs) ∧
    (wf s → reliable s → ∃ outs s', get_all s = Returns outs s').
Proof.
  intros s. split.
  - intros outs s'. unfold get_all.
    intros (items & s1 & Hq & Hmap)%bind_returns_inv.
    apply mapM_project_inv in Hmap as [-> Hall]. by exists items.
  - intros Hwf Hf. destruct (get_all_spec s Hwf Hf) as (s' & Hall & _).
    by eexists _, _.
Qed.

Lemma get_all_projects_the_query_result_witness :
  wf sample_session ∧ reliable sample_session ∧
  get_all sample_session
    = Returns [mkOutput 7%N "A" "B"] sample_session ∧
  ∃ items,
    session_query_all sample_session = Returns items sample_session ∧
    Forall2
      (λ item out,
         heap sample_session !! item =
           Some (mkDemand (Some (out_id out)) (out_origin out)
                   (out_destination out)))
      items [mkOutput 7%N "A" "B"].
Proof.
  split; [exact sample_session_wf|]. split; [done|]. split; [reflexivity|].
  exact (proj1 (get_all_projects_the_query_result sample_session)
           [mkOutput 7%N "A" "B"] sample_session eq_refl).
Defined.

End Claims.


Section Witnesses.
Import ElevatorDemandRepository SessionModel.

Lemma session_errors_propagate_witness :
  session_error (CallCreate (mkInput "A" "B"))
    (empty_session sample_gen [Some OperationalError]) OperationalError ∧
  create (mkInput "A" "B")
    (empty_session sample_gen [Some OperationalError])
    = Raises OperationalError.
Proof.
  assert (session_error (CallCreate (mkInput "A" "B"))
            (empty_session sample_gen [Some OperationalError])
            OperationalError) as Herr.
  { simpl. eexists _, _. split; [reflexivity|].
    right. eexists. split; [reflexivity|]. left. reflexivity. }
  split; [exact Herr|].
  exact (session_errors_propagate Session Session_ORM
           (CallCreate (mkInput "A" "B"))
           (empty_session sample_gen [Some OperationalError])
           OperationalError Herr).
Defined.

Example scrubbing_commit_wipes_the_identifier :
  ∃ s0 s1 s2,
    getattr_id (ORM := Scrubbing_ORM) 0 sample_session
      = Returns (Some 7%N) s0 ∧
    session_delete (ORM := Scrubbing_ORM) 0 s0 = Returns () s1 ∧
    session_commit (ORM := Scrubbing_ORM) s1 = Returns () s2 ∧
    getattr_id (ORM := Scrubbing_ORM) 0 s2 = Returns None s2.
Proof. eexists _, _, _. repeat split. Qed.

Lemma delete_queries_the_identifier_read_first_witness :
  delete (orm := Scrubbing_ORM) 0 sample_session
    = Returns false (scrub (mkSession [] [mkDemand (Some 7%N) "A" "B"] ∅
                              [] [] [] sample_gen 0 [])) ∧
  ∃ id_ s0 s1 s2 found,
    getattr_id (ORM := Scrubbing_ORM) 0 sample_session = Returns id_ s0 ∧
    session_delete (ORM := Scrubbing_ORM) 0 s0 = Returns () s1 ∧
    session_commit (ORM := Scrubbing_ORM) s1 = Returns () s2 ∧
    session_query_filter_by_id_first (ORM := Scrubbing_ORM) id_ s2
      = Returns found
          (scrub (mkSession [] [mkDemand (Some 7%N) "A" "B"] ∅
                    [] [] [] sample_gen 0 [])) ∧
    false = py_bool found.
Proof.
  split; [reflexivity|].
  exact (delete_queries_the_identifier_read_first Session Scrubbing_ORM 0
           sample_session _ false eq_refl).
Defined.

Example abstract_create_raises :
  AbstractRepository.create (S := Session) (Result := ElevatorDemandOutput)
    (mkInput "A" "B") sample_session = Raises NotImplementedError.
Proof. reflexivity. Qed.

(** The scenario of the specification, from an empty table: create, update,
    delete, look up. *)
Example scenario :
  (out ← create (mkInput "A" "B");
   found ← get_item (out_id out);
   match found with
   | Some item =>
       out' ← update item (mkInput "C" "D");
       still_there ← delete item;
       after ← get_item (out_id out);
       mret (out, out', still_there, after)
   | None => raise DanglingReference
   end) (empty_session sample_gen [])
  = Returns (mkOutput 8%N "A" "B", mkOutput 8%N "C" "D", false, None)
      (mkSession [] [mkDemand (Some 8%N) "C" "D"] ∅ [] [] [] sample_gen 1 []).
Proof. reflexivity. Qed.

Example get_item_of_unknown_identifier :
  get_item 9%N sample_session = Returns None sample_session.
Proof. reflexivity. Qed.

Example create_with_taken_identifier :
  create (mkInput "C" "D")
    (mkSession [mkRow 8 "A" "B"] [] ∅ [] [] [] sample_gen 0 [])
  = Raises IntegrityError.
Proof. reflexivity. Qed.

End Witnesses.

(** ** Further lemmas on the table *)

Section TableFacts.
Import SessionModel.

Lemma filter_other_ids_absent pk (rows : list Row) :
  pk ∉ row_id <$> rows → filter (λ row, row_id row ≠ pk) rows = rows.
Proof.
  induction rows as [|row rows IH]; [done|].
  rewrite fmap_cons, not_elem_of_cons. intros [Hne Hpk].
  rewrite filter_cons_True by (simpl; congruence). by rewrite IH.
Qed.

Lemma filter_other_ids_length pk (rows : list Row) :
  NoDup (row_id <$> rows) → pk ∈ row_id <$> rows →
  S (length (filter (λ row, row_id row ≠ pk) rows)) = length rows.
Proof.
  induction rows as [|row rows IH]; simpl.
  - by intros _ ?%elem_of_nil.
  - intros [Hrow Hnd]%NoDup_cons Hin.
    destruct (decide (row_id row = pk)) as [Heq|Hne].
    + rewrite filter_cons_False by (simpl; tauto).
      rewrite filter_other_ids_absent by (by rewrite <- Heq). done.
    + rewrite filter_cons_True by done. simpl. f_equal. apply IH; [done|].
      apply elem_of_cons in Hin as [?|?]; [congruence | done].
Qed.

Lemma select_by_id_filter_other pk pk' (rows : list Row) :
  pk' ≠ pk →
  select_by_id pk' (filter (λ row, row_id row ≠ pk) rows)
    = select_by_id pk' rows.
Proof.
  intros Hne. unfold select_by_id. induction rows as [|row rows IH]; [done|].
  destruct (decide (row_id row = pk)) as [Heq|Hrow].
  - rewrite (filter_cons_False (λ row, row_id row ≠ pk)) by (simpl; tauto).
    rewrite (filter_cons_False (λ row, row_id row = pk')) by
      (simpl; congruence).
    done.
  - rewrite (filter_cons_True (λ row, row_id row ≠ pk)) by done.
    destruct (decide (row_id row = pk')) as [Heq'|Hrow'].
    + rewrite !(filter_cons_True (λ row, row_id row = pk')) by done.
      by rewrite IH.
    + rewrite !(filter_cons_False (λ row, row_id row = pk')) by done.
      done.
Qed.

Lemma select_by_id_rewrite_other pk pk' new_data (rows : list Row) :
  pk' ≠ pk →
  select_by_id pk' (rewrite_row pk new_data <$> rows)
    = select_by_id pk' rows.
Proof.
  intros Hne. unfold select_by_id. induction rows as [|row rows IH]; [done|].
  rewrite fmap_cons. unfold rewrite_row at 1.
  destruct (decide (row_id row = pk)) as [Heq|Hrow].
  - rewrite bool_decide_eq_true_2 by done.
    rewrite !filter_cons_False by (simpl; congruence). done.
  - rewrite bool_decide_eq_false_2 by done.
    destruct (decide (row_id row = pk')) as [Heq'|Hrow'].
    + rewrite !filter_cons_True by done. by rewrite IH.
    + rewrite !filter_cons_False by done. done.
Qed.

Lemma rewrite_row_ids pk new_data (rows : list Row) :
  row_id <$> (rewrite_row pk new_data <$> rows) = row_id <$> rows.
Proof.
  rewrite <- list_fmap_compose. apply list_fmap_ext. intros _ row _. simpl.
  unfold rewrite_row. by case_bool_decide.
Qed.

Lemma rewrite_row_twice pk a b (rows : list Row) :
  rewrite_row pk b <$> (rewrite_row pk a <$> rows)
    = rewrite_row pk b <$> rows.
Proof.
  rewrite <- list_fmap_compose. apply list_fmap_ext. intros _ row _. simpl.
  unfold rewrite_row. destruct (decide (row_id row = pk)) as [Heq|Hne].
  - rewrite (bool_decide_eq_true_2 (row_id row = pk)) by done. simpl.
    by rewrite bool_decide_eq_true_2.
  - by rewrite !(bool_decide_eq_false_2 (row_id row = pk)).
Qed.

Lemma output_of_rewrite_row pk new_data (rows : list Row) :
  output_of <$> (rewrite_row pk new_data <$> rows)
    = rewrite_output pk new_data <$> (output_of <$> rows).
Proof.
  rewrite <- !list_fmap_compose. apply list_fmap_ext. intros _ row _. simpl.
  unfold rewrite_row, rewrite_output, output_of. simpl.
  by case_bool_decide.
Qed.

Lemma output_of_filter_other pk (rows : list Row) :
  output_of <$> filter (λ row, row_id row ≠ pk) rows
    = filter (λ out, out_id out ≠ pk) (output_of <$> rows).
Proof.
  induction rows as [|row rows IH]; [done|].
  rewrite fmap_cons. destruct (decide (row_id row = pk)) as [Heq|Hne].
  - rewrite !filter_cons_False by (simpl; tauto). done.
  - rewrite !filter_cons_True by done. rewrite fmap_cons. by f_equal.
Qed.

End TableFacts.

(** ** Further lemmas on the methods *)

Section MethodFacts.
Import ElevatorDemandRepository SessionModel.

Lemma create_collision (s : Session) (item : ElevatorDemandInput) :
  clean s → reliable s →
  uuid_gen s (uuid_count s) ∈ row_id <$> table s →
  create item s = Raises IntegrityError.
Proof.
  destruct s as [t h m n d del g c f]; unfold clean, reliable; simpl.
  intros (-> & -> & ->) -> Htaken.
  unfold create. orm_ops.
  rewrite (bind_returns _ _ _ _ _ (init_run _ _)). norm.
  mstep_with add_run.
  apply bind_raises. unfold commit.
  erewrite bind_returns by (by apply round_trip_run).
  unfold flush. mred. unfold insert_row, next_id, deref. mred.
  rewrite list_lookup_middle by done. simpl.
  by rewrite bool_decide_eq_true_2.
Qed.

Lemma get_item_found (s : Session) (item_id : UUID4) (row : Row) :
  wf s → reliable s → first_match item_id (table s) row →
  ∃ r s',
    get_item item_id s = Returns (Some r) s' ∧
    heap s' !! r = Some (instance_of row) ∧
    identity_map s' !! item_id = Some r ∧
    wf s' ∧ same_storage s s'.
Proof.
  intros [Hc Hok Hnd] Hf Hrow.
  assert (row_id row = item_id) as Hid by (by destruct Hrow as (?&?&?&?&?)).
  destruct (identity_map s !! item_id) as [r|] eqn:Hm.
  - pose proof (Hok _ _ Hm) as Hr. simpl in Hr.
    assert (r < length (heap s)) as Hlt.
    { destruct (heap s !! r) eqn:E; [by eapply lookup_lt_Some | done]. }
    eexists _, _. split; [by apply get_item_known|]. simpl.
    split; [by apply list_lookup_insert_eq|]. split; [done|].
    split; [split|done]; simpl; [done| |done].
    intros pk r' Hpk. simpl in *. destruct (decide (r' = r)) as [->|Hne].
    + rewrite list_lookup_insert_eq by done. simpl.
      pose proof (Hok _ _ Hpk) as Hr'. simpl in Hr'. congruence.
    + rewrite list_lookup_insert_ne by done. exact (Hok _ _ Hpk).
  - eexists _, _. split; [by apply get_item_unknown|]. simpl.
    split; [by apply list_lookup_middle|].
    split; [by rewrite lookup_insert_eq|].
    split; [split|done]; simpl; [done| |done].
    intros pk r' Hpk. simpl in Hpk.
    apply lookup_insert_Some in Hpk as [[<- <-]|[Hne Hpk]]; simpl.
    + rewrite list_lookup_middle by done. simpl. by rewrite Hid.
    + pose proof (Hok _ _ Hpk) as Hr'. simpl in Hr'.
      destruct (heap s !! r') eqn:E; [|done].
      by rewrite (lookup_app_l_Some _ _ _ _ E).
Qed.

Lemma same_storage_reliable s s' :
  same_storage s s' → reliable s → reliable s'.
Proof. unfold reliable. intros (_&_&_&_&_&_&Hf) Hr. congruence. Qed.

Lemma update_post_wf (s : Session) (item : ref) (pk : UUID4)
    (new_data : ElevatorDemandInput) :
  wf s → reliable s → live s item pk →
  let s' :=
    mkSession (rewrite_row pk new_data <$> table s)
      (<[item := mkDemand (Some pk) (in_origin new_data)
                   (in_destination new_data)]> (heap s))
      (identity_map s) [] [] [] (uuid_gen s) (uuid_count s) [] in
  update item new_data s =
    Returns (mkOutput pk (in_origin new_data) (in_destination new_data)) s' ∧
  wf s' ∧ reliable s' ∧ live s' item pk.
Proof.
  intros Hwf Hf Hlive s'.
  destruct (update_wf s item pk new_data Hwf Hf Hlive)
    as (s1 & Hrun & Hwf1 & Hf1 & Hlive1).
  assert (s1 = s') as ->; [|done].
  rewrite (update_spec s item pk new_data) in Hrun by (done || apply Hwf). by injection Hrun.
Qed.

Lemma delete_post_wf (s : Session) (item : ref) (pk : UUID4) :
  wf s → reliable s → live s item pk →
  let s' :=
    mkSession (filter (λ row, row_id row ≠ pk) (table s)) (heap s)
      (base.delete pk (identity_map s)) [] [] []
      (uuid_gen s) (uuid_count s) [] in
  delete item s = Returns false s' ∧ wf s' ∧ reliable s'.
Proof.
  intros Hwf Hf Hlive s'.
  destruct (delete_wf s item pk Hwf Hf Hlive) as (s1 & Hrun & Hwf1 & Hf1).
  assert (s1 = s') as ->; [|done].
  rewrite (delete_spec s item pk) in Hrun by (done || apply Hwf). by injection Hrun.
Qed.

Lemma two_record_session_wf : wf two_record_session.
Proof.
  split.
  - done.
  - apply map_Forall_insert_2; [reflexivity|].
    apply map_Forall_singleton. reflexivity.
  - apply (bool_decide_unpack _). vm_compute. exact I.
Qed.

Lemma two_record_session_live : live two_record_session 0 7%N.
Proof. repeat split. simpl. by left. Qed.

End MethodFacts.

Section ListingFacts.
Import ElevatorDemandRepository SessionModel.

Lemma first_match_exists pk (rows : list Row) :
  pk ∈ row_id <$> rows → ∃ row, first_match pk rows row.
Proof.
  intros Hin. destruct (head (select_by_id pk rows)) as [row|] eqn:Hhead.
  - exists row. by apply select_by_id_head.
  - apply head_None in Hhead.
    apply list_elem_of_fmap in Hin as (row & -> & Hrow).
    assert (row ∈ select_by_id (row_id row) rows) as Hsel.
    { unfold select_by_id. by apply list_elem_of_filter. }
    rewrite Hhead in Hsel. by apply elem_of_nil in Hsel.
Qed.

Lemma materialize_keeps_identity row s r s' :
  materialize row s = Returns r s' →
  ∀ pk r0, identity_map s !! pk = Some r0 → identity_map s' !! pk = Some r0.
Proof.
  destruct (identity_map s !! row_id row) as [r1|] eqn:Hm.
  - rewrite (materialize_hit _ _ _ Hm). by intros [= <- <-].
  - rewrite (materialize_miss _ _ Hm). intros [= <- <-] pk r0 Hpk. simpl.
    rewrite lookup_insert_ne; [done|]. congruence.
Qed.

Lemma mapM_materialize_keeps_identity rows : ∀ s refs s',
  mapM materialize rows s = Returns refs s' →
  ∀ pk r0, identity_map s !! pk = Some r0 → identity_map s' !! pk = Some r0.
Proof.
  induction rows as [|row rows IH]; intros s refs s'; simpl.
  - by intros [_ ->]%mret_returns_inv.
  - intros (r & s1 & Hrow & H)%bind_returns_inv.
    apply bind_returns_inv in H as (refs' & s2 & Hrows & H).
    apply mret_returns_inv in H as [_ ->].
    intros pk r0 Hpk. eapply IH; [done|].
    by eapply materialize_keeps_identity.
Qed.

Lemma get_all_keeps_live (s : Session) (item : ref) (pk : UUID4) :
  wf s → reliable s → live s item pk →
  ∃ s',
    get_all s = Returns (output_of <$> table s) s' ∧
    wf s' ∧ reliable s' ∧ same_storage s s' ∧ live s' item pk.
Proof.
  intros Hwf Hf (Hobj & Hm & Hrow).
  destruct (get_all_spec s Hwf Hf) as (s' & Hrun & Hwf' & Hsame).
  exists s'. split; [done|]. split; [done|].
  split; [by eapply same_storage_reliable|]. split; [done|].
  assert (identity_map s' !! pk = Some item) as Hm'.
  { unfold get_all in Hrun.
    apply bind_returns_inv in Hrun as (items & s1 & Hq & Hproj).
    apply mapM_project_inv in Hproj as [Heq _]. subst s1.
    change (query_all s = Returns items s') in Hq.
    rewrite query_all_run in Hq by (done || apply Hwf).
    by eapply mapM_materialize_keeps_identity. }
  split; [|split; [done|]].
  - exact (wf_identity _ Hwf' _ _ Hm').
  - destruct Hsame as (-> & _). done.
Qed.

End ListingFacts.

(** ** More on the repository: errors, invariants and compositions *)

Section Extras.
Import ElevatorDemandRepository SessionModel.

(** X1. In a clean session over a working connection [create] has two
    outcomes, decided by the identifier the generator draws: when a row
    already has it, [create] raises [IntegrityError]; otherwise it returns
    the output with that identifier and the input's fields, the table is the
    old one with one row appended, and nothing is left pending. *)
Theorem create_appends_or_raises_IntegrityError :
  ∀ (s : Session) (item : ElevatorDemandInput),
    clean s → reliable s →
    ((uuid_gen s (uuid_count s) ∈ row_id <$> table s) ∧
     create item s = Raises IntegrityError) ∨
    ((uuid_gen s (uuid_count s) ∉ row_id <$> table s) ∧
     ∃ s',
       create item s =
         Returns (mkOutput (uuid_gen s (uuid_count s)) (in_origin item)
                    (in_destination item)) s' ∧
       table s' =
         table s ++ [mkRow (uuid_gen s (uuid_count s)) (in_origin item)
                       (in_destination item)] ∧
       clean s').
Proof.
  intros s item Hc Hf.
  destruct (decide (uuid_gen s (uuid_count s) ∈ row_id <$> table s))
    as [Hin|Hout].
  - left. split; [done|]. by apply create_collision.
  - right. split; [done|]. eexists. split; [by apply create_spec|]. done.
Qed.

Lemma create_appends_or_raises_IntegrityError_witness :
  clean sample_session ∧ reliable sample_session ∧
  (((uuid_gen sample_session (uuid_count sample_session)
       ∈ row_id <$> table sample_session) ∧
    create (mkInput "C" "D") sample_session = Raises IntegrityError) ∨
   ((uuid_gen sample_session (uuid_count sample_session)
       ∉ row_id <$> table sample_session) ∧
    ∃ s',
      create (mkInput "C" "D") sample_session =
        Returns (mkOutput 8%N "C" "D") s' ∧
      table s' = table sample_session ++ [mkRow 8%N "C" "D"] ∧
      clean s')).
Proof.
  split; [done|]. split; [done|].
  exact (create_appends_or_raises_IntegrityError sample_session
           (mkInput "C" "D") (conj eq_refl (conj eq_refl eq_refl)) eq_refl).
Defined.

(** X2. Well-formedness is kept by the five methods.  In a well-formed
    session over a working connection each method returns (with a new
    identifier to draw for [create], a live record for [update] and
    [delete]), and the session it leaves is again well-formed over a working
    connection: nothing pending, a sound identity map, no two rows with the
    same identifier.  After [update] the record is still live. *)
Theorem methods_keep_the_session_well_formed :
  ∀ (s : Session),
    wf s → reliable s →
    (∀ item,
       uuid_gen s (uuid_count s) ∉ row_id <$> table s →
       ∃ out s', create item s = Returns out s' ∧ wf s' ∧ reliable s') ∧
    (∃ outs s', get_all s = Returns outs s' ∧ wf s' ∧ reliable s') ∧
    (∀ item_id,
       ∃ found s',
         get_item item_id s = Returns found s' ∧ wf s' ∧ reliable s') ∧
    (∀ item pk new_data,
       live s item pk →
       ∃ out s',
         update item new_data s = Returns out s' ∧ wf s' ∧ reliable s' ∧
         live s' item pk) ∧
    (∀ item pk,
       live s item pk →
       ∃ b s', delete item s = Returns b s' ∧ wf s' ∧ reliable s').
Proof.
  intros s Hwf Hf. split; [|split; [|split; [|split]]].
  - intros item Hfresh.
    destruct (create_wf s item Hwf Hf Hfresh) as (s' & Hrun & Hwf' & Hf' & _).
    by eexists _, _.
  - destruct (get_all_spec s Hwf Hf) as (s' & Hrun & Hwf' & Hsame).
    eexists _, _. split; [done|]. split; [done|].
    by eapply same_storage_reliable.
  - intros item_id.
    destruct (decide (item_id ∈ row_id <$> table s)) as [Hin|Hout].
    + destruct (first_match_exists _ _ Hin) as (row & Hrow).
      destruct (get_item_found s item_id row Hwf Hf Hrow)
        as (r & s' & Hrun & _ & _ & Hwf' & Hsame).
      eexists _, _. split; [done|]. split; [done|].
      by eapply same_storage_reliable.
    + exists None, s. split; [|done].
      apply get_item_absent; [apply Hwf | done | done].
  - intros item pk new_data Hlive.
    destruct (update_wf s item pk new_data Hwf Hf Hlive)
      as (s' & Hrun & Hrest).
    by eexists _, _.
  - intros item pk Hlive.
    destruct (delete_wf s item pk Hwf Hf Hlive) as (s' & Hrun & Hrest).
    by eexists _, _.
Qed.

Lemma methods_keep_the_session_well_formed_witness :
  wf two_record_session ∧ reliable two_record_session ∧
  (∃ out s',
     create (mkInput "C" "D") two_record_session = Returns out s' ∧
     wf s' ∧ reliable s') ∧
  (∃ out s',
     update 0 (mkInput "C" "D") two_record_session = Returns out s' ∧
     wf s' ∧ reliable s' ∧ live s' 0 7%N) ∧
  (∃ b s', delete 0 two_record_session = Returns b s' ∧ wf s' ∧ reliable s').
Proof.
  pose proof (methods_keep_the_session_well_formed two_record_session
                two_record_session_wf eq_refl)
    as (Hcreate & _ & _ & Hupdate & Hdelete).
  split; [exact two_record_session_wf|]. split; [done|].
  split; [|split].
  - apply Hcreate. apply (bool_decide_unpack _). vm_compute. exact I.
  - exact (Hupdate 0 7%N (mkInput "C" "D") two_record_session_live).
  - exact (Hdelete 0 7%N two_record_session_live).
Defined.

(** X3. In a well-formed session over a working connection, [delete] of a
    live record removes exactly one row: the table is one row shorter, and
    every row with another identifier is still in it. *)
Theorem delete_removes_exactly_one_row :
  ∀ (s : Session) (item : ref) (pk : UUID4),
    wf s → reliable s → live s item pk →
    ∃ b s',
      delete item s = Returns b s' ∧
      S (length (table s')) = length (table s) ∧
      ∀ row, row ∈ table s → row_id row ≠ pk → row ∈ table s'.
Proof.
  intros s item pk Hwf Hf Hlive.
  destruct (delete_post_wf s item pk Hwf Hf Hlive) as (Hrun & _).
  eexists _, _. split; [exact Hrun|]. simpl. split.
  - apply filter_other_ids_length; [apply Hwf | apply Hlive].
  - intros row Hrow Hne. by apply list_elem_of_filter.
Qed.

Lemma delete_removes_exactly_one_row_witness :
  wf two_record_session ∧ reliable two_record_session ∧
  live two_record_session 0 7%N ∧
  ∃ b s',
    delete 0 two_record_session = Returns b s' ∧
    S (length (table s')) = length (table two_record_session) ∧
    ∀ row, row ∈ table two_record_session → row_id row ≠ 7%N →
           row ∈ table s'.
Proof.
  split; [exact two_record_session_wf|]. split; [done|].
  split; [exact two_record_session_live|].
  exact (delete_removes_exactly_one_row two_record_session 0 7%N
           two_record_session_wf eq_refl two_record_session_live).
Defined.

(** X4. [get_all] can be repeated: in a well-formed session over a working
    connection a second call returns the same list as the first, and the
    first leaves the table as it was, draws no identifier and leaves nothing
    pending. *)
Theorem get_all_is_repeatable :
  ∀ (s : Session),
    wf s → reliable s →
    ∃ outs s1 s2,
      get_all s = Returns outs s1 ∧
      get_all s1 = Returns outs s2 ∧
      table s1 = table s ∧ uuid_count s1 = uuid_count s ∧ clean s1.
Proof.
  intros s Hwf Hf.
  destruct (get_all_spec s Hwf Hf) as (s1 & Hrun1 & Hwf1 & Hsame).
  pose proof (same_storage_reliable _ _ Hsame Hf) as Hf1.
  destruct (get_all_spec s1 Hwf1 Hf1) as (s2 & Hrun2 & _).
  destruct Hsame as (Ht & _ & _ & _ & _ & Hc & _).
  exists (output_of <$> table s), s1, s2.
  split; [done|]. split; [by rewrite <- Ht|]. split; [done|].
  split; [done | apply Hwf1].
Qed.

Lemma get_all_is_repeatable_witness :
  wf two_record_session ∧ reliable two_record_session ∧
  ∃ outs s1 s2,
    get_all two_record_session = Returns outs s1 ∧
    get_all s1 = Returns outs s2 ∧
    table s1 = table two_record_session ∧
    uuid_count s1 = uuid_count two_record_session ∧ clean s1.
Proof.
  split; [exact two_record_session_wf|]. split; [done|].
  exact (get_all_is_repeatable two_record_session two_record_session_wf
           eq_refl).
Defined.

(** X5. [get_item] on the identifier of a live record returns that very
    instance, with its attributes read from the first row of that
    identifier, and changes nothing else; a second call returns the same
    instance and leaves the session as the first call left it. *)
Theorem get_item_returns_the_live_instance :
  ∀ (s : Session) (item : ref) (pk : UUID4),
    clean s → reliable s → live s item pk →
    ∃ row s',
      first_match pk (table s) row ∧
      get_item pk s = Returns (Some item) s' ∧
      heap s' = <[item := instance_of row]> (heap s) ∧
      same_storage s s' ∧ identity_map s' = identity_map s ∧
      get_item pk s' = Returns (Some item) s'.
Proof.
  intros s item pk Hc Hf Hlive.
  pose proof (live_inv _ _ _ Hlive) as (obj & Hr & Hid & Hm & Hin).
  destruct (first_match_exists _ _ Hin) as (row & Hrow).
  exists row, (with_heap (λ h, <[item := instance_of row]> h) s).
  split; [done|]. split; [by apply get_item_known|].
  split; [done|]. split; [done|]. split; [done|].
  rewrite (get_item_known _ pk row item) by done.
  destruct s; simpl. unfold with_heap; simpl.
  by rewrite list_insert_insert_eq.
Qed.

Lemma get_item_returns_the_live_instance_witness :
  clean two_record_session ∧ reliable two_record_session ∧
  live two_record_session 0 7%N ∧
  ∃ row s',
    first_match 7%N (table two_record_session) row ∧
    get_item 7%N two_record_session = Returns (Some 0) s' ∧
    heap s' = <[0 := instance_of row]> (heap two_record_session) ∧
    same_storage two_record_session s' ∧
    identity_map s' = identity_map two_record_session ∧
    get_item 7%N s' = Returns (Some 0) s'.
Proof.
  split; [done|]. split; [done|]. split; [exact two_record_session_live|].
  exact (get_item_returns_the_live_instance two_record_session 0 7%N
           (conj eq_refl (conj eq_refl eq_refl)) eq_refl
           two_record_session_live).
Defined.


(** X6. Listing after an update: in a well-formed session over a working
    connection, [get_all], then [update] of a live record, then [get_all]
    again gives, up to the order of the entries, the first listing with the
    entry of the record's identifier replaced by the output of the update:
    the other entries are as before and so is the number of entries.
    Nothing is said of where the entries stand in the listing. *)
Theorem update_then_get_all :
  ∀ (s : Session) (item : ref) (pk : UUID4) (new_data : ElevatorDemandInput),
    wf s → reliable s → live s item pk →
    ∃ before s1 s2 after s3,
      get_all s = Returns before s1 ∧
      update item new_data s1 =
        Returns (mkOutput pk (in_origin new_data) (in_destination new_data))
          s2 ∧
      get_all s2 = Returns after s3 ∧
      after ≡ₚ rewrite_output pk new_data <$> before ∧
      length after = length before.
Proof.
  intros s item pk new_data Hwf Hf Hlive.
  destruct (get_all_keeps_live s item pk Hwf Hf Hlive)
    as (s1 & Hrun1 & Hwf1 & Hf1 & Hsame & Hlive1).
  destruct (update_post_wf s1 item pk new_data Hwf1 Hf1 Hlive1)
    as (Hrun2 & Hwf2 & Hf2 & _).
  destruct (get_all_spec _ Hwf2 Hf2) as (s3 & Hrun3 & _).
  destruct Hsame as (Ht & _).
  eexists _, _, _, _, _. split; [exact Hrun1|]. split; [exact Hrun2|].
  split; [exact Hrun3|]. simpl. rewrite Ht.
  split; [by rewrite output_of_rewrite_row|]. by rewrite !length_fmap.
Qed.

Lemma update_then_get_all_witness :
  wf two_record_session ∧ reliable two_record_session ∧
  live two_record_session 0 7%N ∧
  ∃ before s1 s2 after s3,
    get_all two_record_session = Returns before s1 ∧
    update 0 (mkInput "C" "D") s1 = Returns (mkOutput 7%N "C" "D") s2 ∧
    get_all s2 = Returns after s3 ∧
    after ≡ₚ rewrite_output 7%N (mkInput "C" "D") <$> before ∧
    length after = length before.
Proof.
  split; [exact two_record_session_wf|]. split; [done|].
  split; [exact two_record_session_live|].
  exact (update_then_get_all two_record_session 0 7%N (mkInput "C" "D")
           two_record_session_wf eq_refl two_record_session_live).
Defined.

(** X7. Listing after a deletion: in a well-formed session over a working
    connection, [get_all], then [delete] of a live record, then [get_all]
    again gives the first listing without the entries of the record's
    identifier, the other entries in their order; it is one entry
    shorter. *)
Theorem delete_then_get_all :
  ∀ (s : Session) (item : ref) (pk : UUID4),
    wf s → reliable s → live s item pk →
    ∃ before s1 b s2 after s3,
      get_all s = Returns before s1 ∧
      delete item s1 = Returns b s2 ∧
      get_all s2 = Returns after s3 ∧
      after = filter (λ out, out_id out ≠ pk) before ∧
      S (length after) = length before.
Proof.
  intros s item pk Hwf Hf Hlive.
  destruct (get_all_keeps_live s item pk Hwf Hf Hlive)
    as (s1 & Hrun1 & Hwf1 & Hf1 & Hsame & Hlive1).
  destruct (delete_post_wf s1 item pk Hwf1 Hf1 Hlive1)
    as (Hrun2 & Hwf2 & Hf2).
  destruct (get_all_spec _ Hwf2 Hf2) as (s3 & Hrun3 & _).
  destruct Hsame as (Ht & _).
  eexists _, _, _, _, _, _. split; [exact Hrun1|]. split; [exact Hrun2|].
  split; [exact Hrun3|]. simpl. rewrite Ht.
  split; [apply output_of_filter_other|]. rewrite !length_fmap.
  apply filter_other_ids_length; [apply Hwf | apply Hlive].
Qed.

Lemma delete_then_get_all_witness :
  wf two_record_session ∧ reliable two_record_session ∧
  live two_record_session 0 7%N ∧
  ∃ before s1 b s2 after s3,
    get_all two_record_session = Returns before s1 ∧
    delete 0 s1 = Returns b s2 ∧
    get_all s2 = Returns after s3 ∧
    after = filter (λ out, out_id out ≠ 7%N) before ∧
    S (length after) = length before.
Proof.
  split; [exact two_record_session_wf|]. split; [done|].
  split; [exact two_record_session_live|].
  exact (delete_then_get_all two_record_session 0 7%N
           two_record_session_wf eq_refl two_record_session_live).
Defined.

(** X8. Creating a record and deleting it again restores the listing: in a
    well-formed session over a working connection with a new identifier to
    draw, [get_all], [create], [get_item] on the output's identifier,
    [delete] of the record found and [get_all] again all return, [delete]
    answers false, and the two listings and the two tables are equal. *)
Theorem create_then_delete_restores_the_listing :
  ∀ (s : Session) (item : ElevatorDemandInput),
    wf s → reliable s →
    uuid_gen s (uuid_count s) ∉ row_id <$> table s →
    ∃ before s1 out s2 r s3 s4 after s5,
      get_all s = Returns before s1 ∧
      create item s1 = Returns out s2 ∧
      get_item (out_id out) s2 = Returns (Some r) s3 ∧
      delete r s3 = Returns false s4 ∧
      get_all s4 = Returns after s5 ∧
      after = before ∧ table s4 = table s.
Proof.
  intros s item Hwf Hf Hfresh.
  destruct (get_all_spec s Hwf Hf) as (s1 & Hrun1 & Hwf1 & Hsame1).
  pose proof (same_storage_reliable _ _ Hsame1 Hf) as Hf1.
  destruct Hsame1 as (Ht1 & _ & _ & _ & Hg1 & Hc1 & _).
  assert (uuid_gen s1 (uuid_count s1) ∉ row_id <$> table s1) as Hfresh1.
  { by rewrite Hg1, Hc1, Ht1. }
  destruct (create_wf s1 item Hwf1 Hf1 Hfresh1)
    as (s2 & Hrun2 & Hwf2 & Hf2 & Ht2 & _).
  set (pk := uuid_gen s1 (uuid_count s1)) in *.
  assert (first_match pk (table s2)
            (mkRow pk (in_origin item) (in_destination item))) as Hrow.
  { exists (table s1), []. by rewrite Ht2. }
  destruct (get_item_found s2 pk _ Hwf2 Hf2 Hrow)
    as (r & s3 & Hrun3 & Hr & Hm & Hwf3 & Hsame3).
  pose proof (same_storage_reliable _ _ Hsame3 Hf2) as Hf3.
  destruct Hsame3 as (Ht3 & _).
  assert (live s3 r pk) as Hlive.
  { split; [by rewrite Hr|]. split; [done|]. rewrite Ht3, Ht2, fmap_app.
    apply elem_of_app. right. simpl. by left. }
  destruct (delete_post_wf s3 r pk Hwf3 Hf3 Hlive) as (Hrun4 & Hwf4 & Hf4).
  destruct (get_all_spec _ Hwf4 Hf4) as (s5 & Hrun5 & _).
  assert (filter (λ row, row_id row ≠ pk) (table s3) = table s) as Hback.
  { rewrite Ht3, Ht2, filter_app, filter_other_ids_absent by done.
    rewrite filter_cons_False by (simpl; tauto). simpl.
    by rewrite app_nil_r. }
  eexists _, _, _, _, _, _, _, _, _. split; [exact Hrun1|].
  split; [exact Hrun2|]. split; [exact Hrun3|]. split; [exact Hrun4|].
  split; [exact Hrun5|]. simpl. by rewrite Hback.
Qed.

Lemma create_then_delete_restores_the_listing_witness :
  wf two_record_session ∧ reliable two_record_session ∧
  (uuid_gen two_record_session (uuid_count two_record_session)
     ∉ row_id <$> table two_record_session) ∧
  ∃ before s1 out s2 r s3 s4 after s5,
    get_all two_record_session = Returns before s1 ∧
    create (mkInput "C" "D") s1 = Returns out s2 ∧
    get_item (out_id out) s2 = Returns (Some r) s3 ∧
    delete r s3 = Returns false s4 ∧
    get_all s4 = Returns after s5 ∧
    after = before ∧ table s4 = table two_record_session.
Proof.
  assert (uuid_gen two_record_session (uuid_count two_record_session)
            ∉ row_id <$> table two_record_session) as Hfresh.
  { apply (bool_decide_unpack _). vm_compute. exact I. }
  split; [exact two_record_session_wf|]. split; [done|].
  split; [exact Hfresh|].
  exact (create_then_delete_restores_the_listing two_record_session
           (mkInput "C" "D") two_record_session_wf eq_refl Hfresh).
Defined.

(** X9. The last update wins: in a well-formed session over a working
    connection, [update] of a live record with [a] and then with [b] returns
    the output of [b] and leaves the session exactly as [update] with [b]
    alone leaves it. *)
Theorem update_twice_keeps_the_last :
  ∀ (s : Session) (item : ref) (pk : UUID4) (a b : ElevatorDemandInput),
    wf s → reliable s → live s item pk →
    ∃ s1 s2,
      update item a s =
        Returns (mkOutput pk (in_origin a) (in_destination a)) s1 ∧
      update item b s1 =
        Returns (mkOutput pk (in_origin b) (in_destination b)) s2 ∧
      update item b s =
        Returns (mkOutput pk (in_origin b) (in_destination b)) s2.
Proof.
  intros s item pk a b Hwf Hf Hlive.
  destruct (update_post_wf s item pk a Hwf Hf Hlive)
    as (Hrun1 & Hwf1 & Hf1 & Hlive1).
  destruct (update_post_wf _ item pk b Hwf1 Hf1 Hlive1) as (Hrun2 & _).
  destruct (update_post_wf s item pk b Hwf Hf Hlive) as (Hrun3 & _).
  eexists _, _. split; [exact Hrun1|]. split; [exact Hrun2|].
  rewrite Hrun3. simpl. by rewrite rewrite_row_twice, list_insert_insert_eq.
Qed.

Lemma update_twice_keeps_the_last_witness :
  wf two_record_session ∧ reliable two_record_session ∧
  live two_record_session 0 7%N ∧
  ∃ s1 s2,
    update 0 (mkInput "C" "D") two_record_session =
      Returns (mkOutput 7%N "C" "D") s1 ∧
    update 0 (mkInput "E" "F") s1 = Returns (mkOutput 7%N "E" "F") s2 ∧
    update 0 (mkInput "E" "F") two_record_session =
      Returns (mkOutput 7%N "E" "F") s2.
Proof.
  split; [exact two_record_session_wf|]. split; [done|].
  split; [exact two_record_session_live|].
  exact (update_twice_keeps_the_last two_record_session 0 7%N
           (mkInput "C" "D") (mkInput "E" "F")
           two_record_session_wf eq_refl two_record_session_live).
Defined.

(** X10. Deleting one record leaves the others retrievable: in a
    well-formed session over a working connection, after [delete] of a live
    record, [get_item] on another identifier returns a record that reads as
    the row that identifier had before the deletion. *)
Theorem delete_keeps_the_other_records :
  ∀ (s : Session) (item : ref) (pk other : UUID4) (row : Row),
    wf s → reliable s → live s item pk →
    other ≠ pk → first_match other (table s) row →
    ∃ b s1 r s2,
      delete item s = Returns b s1 ∧
      get_item other s1 = Returns (Some r) s2 ∧
      heap s2 !! r = Some (instance_of row).
Proof.
  intros s item pk other row Hwf Hf Hlive Hne Hrow.
  destruct (delete_post_wf s item pk Hwf Hf Hlive) as (Hrun & Hwf1 & Hf1).
  match type of Hwf1 with wf ?s1 =>
    assert (first_match other (table s1) row) as Hrow1
  end.
  { apply select_by_id_head. simpl.
    rewrite select_by_id_filter_other by done.
    by apply select_by_id_first. }
  destruct (get_item_found _ other row Hwf1 Hf1 Hrow1)
    as (r & s2 & Hrun2 & Hr & _).
  by eexists _, _, _, _.
Qed.

Lemma delete_keeps_the_other_records_witness :
  wf two_record_session ∧ reliable two_record_session ∧
  live two_record_session 0 7%N ∧ 3%N ≠ 7%N ∧
  first_match 3%N (table two_record_session) (mkRow 3 "X" "Y") ∧
  ∃ b s1 r s2,
    delete 0 two_record_session = Returns b s1 ∧
    get_item 3%N s1 = Returns (Some r) s2 ∧
    heap s2 !! r = Some (instance_of (mkRow 3 "X" "Y")).
Proof.
  assert (first_match 3%N (table two_record_session) (mkRow 3 "X" "Y"))
    as Hrow.
  { exists [mkRow 7 "A" "B"], []. repeat split.
    apply (bool_decide_unpack _). vm_compute. exact I. }
  split; [exact two_record_session_wf|]. split; [done|].
  split; [exact two_record_session_live|]. split; [done|].
  split; [exact Hrow|].
  exact (delete_keeps_the_other_records two_record_session 0 7%N 3%N
           (mkRow 3 "X" "Y") two_record_session_wf eq_refl
           two_record_session_live ltac:(done) Hrow).
Defined.

(** X11. Updating one record leaves the others as they were: in a
    well-formed session over a working connection, [update] of a live record
    keeps the identifiers of the table, whatever their order, and
    [get_item] on another identifier afterwards returns a record that reads
    as the row that identifier had before the update. *)
Theorem update_keeps_the_other_records :
  ∀ (s : Session) (item : ref) (pk other : UUID4)
    (new_data : ElevatorDemandInput) (row : Row),
    wf s → reliable s → live s item pk →
    other ≠ pk → first_match other (table s) row →
    ∃ out s1 r s2,
      update item new_data s = Returns out s1 ∧
      row_id <$> table s1 ≡ₚ row_id <$> table s ∧
      get_item other s1 = Returns (Some r) s2 ∧
      heap s2 !! r = Some (instance_of row).
Proof.
  intros s item pk other new_data row Hwf Hf Hlive Hne Hrow.
  destruct (update_post_wf s item pk new_data Hwf Hf Hlive)
    as (Hrun & Hwf1 & Hf1 & _).
  match type of Hwf1 with wf ?s1 =>
    assert (first_match other (table s1) row) as Hrow1
  end.
  { apply select_by_id_head. simpl.
    rewrite select_by_id_rewrite_other by done.
    by apply select_by_id_first. }
  destruct (get_item_found _ other row Hwf1 Hf1 Hrow1)
    as (r & s2 & Hrun2 & Hr & _).
  eexists _, _, _, _. split; [exact Hrun|]. split; [|by split].
  simpl. by rewrite rewrite_row_ids.
Qed.

Lemma update_keeps_the_other_records_witness :
  wf two_record_session ∧ reliable two_record_session ∧
  live two_record_session 0 7%N ∧ 3%N ≠ 7%N ∧
  first_match 3%N (table two_record_session) (mkRow 3 "X" "Y") ∧
  ∃ out s1 r s2,
    update 0 (mkInput "C" "D") two_record_session = Returns out s1 ∧
    row_id <$> table s1 ≡ₚ row_id <$> table two_record_session ∧
    get_item 3%N s1 = Returns (Some r) s2 ∧
    heap s2 !! r = Some (instance_of (mkRow 3 "X" "Y")).
Proof.
  assert (first_match 3%N (table two_record_session) (mkRow 3 "X" "Y"))
    as Hrow.
  { exists [mkRow 7 "A" "B"], []. repeat split.
    apply (bool_decide_unpack _). vm_compute. exact I. }
  split; [exact two_record_session_wf|]. split; [done|].
  split; [exact two_record_session_live|]. split; [done|].
  split; [exact Hrow|].
  exact (update_keeps_the_other_records two_record_session 0 7%N 3%N
           (mkInput "C" "D") (mkRow 3 "X" "Y") two_record_session_wf eq_refl
           two_record_session_live ltac:(done) Hrow).
Defined.

(** X12. Creating a record leaves the stored ones retrievable: in a
    well-formed session over a working connection with a new identifier to
    draw, after [create], [get_item] on an identifier that was in the table
    returns a record that reads as the row it had before, and the output's
    identifier is none of the identifiers that were in the table. *)
Theorem create_keeps_the_other_records :
  ∀ (s : Session) (item : ElevatorDemandInput) (other : UUID4) (row : Row),
    wf s → reliable s →
    uuid_gen s (uuid_count s) ∉ row_id <$> table s →
    first_match other (table s) row →
    ∃ out s1 r s2,
      create item s = Returns out s1 ∧
      (out_id out ∉ row_id <$> table s) ∧
      get_item other s1 = Returns (Some r) s2 ∧
      heap s2 !! r = Some (instance_of row).
Proof.
  intros s item other row Hwf Hf Hfresh Hrow.
  destruct (create_wf s item Hwf Hf Hfresh)
    as (s1 & Hrun & Hwf1 & Hf1 & Ht1 & _).
  assert (first_match other (table s1) row) as Hrow1.
  { destruct Hrow as (before & after & Ht & Hid & Hpk).
    exists before, (after ++ [mkRow (uuid_gen s (uuid_count s))
                                (in_origin item) (in_destination item)]).
    split; [|done]. by rewrite Ht1, Ht, <- app_assoc. }
  destruct (get_item_found _ other row Hwf1 Hf1 Hrow1)
    as (r & s2 & Hrun2 & Hr & _).
  by eexists _, _, _, _.
Qed.

Lemma create_keeps_the_other_records_witness :
  wf two_record_session ∧ reliable two_record_session ∧
  (uuid_gen two_record_session (uuid_count two_record_session)
     ∉ row_id <$> table two_record_session) ∧
  first_match 3%N (table two_record_session) (mkRow 3 "X" "Y") ∧
  ∃ out s1 r s2,
    create (mkInput "C" "D") two_record_session = Returns out s1 ∧
    (out_id out ∉ row_id <$> table two_record_session) ∧
    get_item 3%N s1 = Returns (Some r) s2 ∧
    heap s2 !! r = Some (instance_of (mkRow 3 "X" "Y")).
Proof.
  assert (uuid_gen two_record_session (uuid_count two_record_session)
            ∉ row_id <$> table two_record_session) as Hfresh.
  { apply (bool_decide_unpack _). vm_compute. exact I. }
  assert (first_match 3%N (table two_record_session) (mkRow 3 "X" "Y"))
    as Hrow.
  { exists [mkRow 7 "A" "B"], []. repeat split.
    apply (bool_decide_unpack _). vm_compute. exact I. }
  split; [exact two_record_session_wf|]. split; [done|].
  split; [exact Hfresh|]. split; [exact Hrow|].
  exact (create_keeps_the_other_records two_record_session
           (mkInput "C" "D") 3%N (mkRow 3 "X" "Y") two_record_session_wf
           eq_refl Hfresh Hrow).
Defined.

End Extras.
